(** * Ordinary Defense 2: the simulation core of [game.js]

    A shallow embedding of the tower-defence simulation written in
    [src/game.js] (class [TowerDefenseGame] and the global
    [startNextWave]), with the properties of its specification stated and
    proved over it.

    Conventions of the embedding.
    - The fields of [this] that the simulation reads or writes are the
      fields of the record [Game]; a method is a function [Game -> Game].
    - Integer-valued JavaScript numbers (gold, lives, score, wave counters,
      health, rewards, millisecond timestamps, age counters) are [Z].
      The other numbers (coordinates, speeds, path progress, distances) are
      exact rationals [Q], which the arithmetic keeps in lowest terms; the
      square root of BABYLON's [Vector3] is an interface ([MathSqrt]), so
      every general theorem holds for any implementation of it.
    - Enemy objects are shared and mutated through several references
      ([this.enemies], [tower.target], [proj.target]); they live in an
      object store [heap] and are referred to by [ref]. Towers are never
      removed from [this.towers], so a tower is referred to by its index.
    - An [async] method runs up to its first [await] when it is called; the
      rest of its body is a [Pending] continuation that resumes, one whole
      continuation at a time, when the awaited model has loaded.
    - [Date.now()] and [Math.random()] are arguments.
    - Rendering, camera, console output and the DOM text written by
      [updateUI] are left out; sounds, particle bursts, the game-over alert
      and the like are recorded in the notification log [fx]. *)

From Stdlib Require Import ZArith QArith Qround Lia String.
From stdpp Require Import base option list gmap.

Open Scope Z_scope.

(** ** JavaScript numbers that are not integers *)

Module Number.
Definition add (a b : Q) : Q := Qred (a + b).
Definition sub (a b : Q) : Q := Qred (a - b).
Definition mul (a b : Q) : Q := Qred (a * b).
Definition div (a b : Q) : Q := Qred (a / b).
Definition ofZ (n : Z) : Q := inject_Z n.
Definition leb (a b : Q) : bool := Qle_bool a b.
Definition ltb (a b : Q) : bool := negb (Qle_bool b a).
Definition eqb (a b : Q) : bool := Qeq_bool a b.
End Number.

(** [Math.sqrt], as far as [BABYLON.Vector3] needs it. *)
Class MathSqrt := Math_sqrt : Q -> Q.

(** A computable instance: the square root rounded down to six decimals,
    exact on the squares of such numbers. It is used to run the model on
    concrete scenes. *)
Definition sqrt_fixed : MathSqrt := fun q =>
  Qred (Z.sqrt (Qnum q * 1000000000000 / Z.pos (Qden q)) # 1000000).

(** ** BABYLON.Vector3 *)

Record Vector3 := mkVector3 { _x : Q; _y : Q; _z : Q }.

Module Vec.
Definition add (a b : Vector3) : Vector3 :=
  mkVector3 (Number.add (_x a) (_x b)) (Number.add (_y a) (_y b))
            (Number.add (_z a) (_z b)).
Definition subtract (a b : Vector3) : Vector3 :=
  mkVector3 (Number.sub (_x a) (_x b)) (Number.sub (_y a) (_y b))
            (Number.sub (_z a) (_z b)).
Definition scale (a : Vector3) (k : Q) : Vector3 :=
  mkVector3 (Number.mul (_x a) k) (Number.mul (_y a) k) (Number.mul (_z a) k).
Definition set_y (v : Q) (a : Vector3) : Vector3 := mkVector3 (_x a) v (_z a).
(** [Lerp(start, end, amount) = start + (end - start) * amount]. *)
Definition Lerp (a b : Vector3) (amount : Q) : Vector3 :=
  add a (scale (subtract b a) amount).
Definition lengthSquared (a : Vector3) : Q :=
  Number.add (Number.add (Number.mul (_x a) (_x a)) (Number.mul (_y a) (_y a)))
             (Number.mul (_z a) (_z a)).

Section WithSqrt.
Context `{MathSqrt}.
Definition length (a : Vector3) : Q := Math_sqrt (lengthSquared a).
Definition Distance (a b : Vector3) : Q := length (subtract a b).
(** [normalize()] leaves a vector of length 0 as it is. *)
Definition normalize (a : Vector3) : Vector3 :=
  let len := length a in
  if Number.eqb len 0 then a else scale a (Number.div 1 len).
End WithSqrt.
End Vec.

(** ** Data model *)

(** Keys of [this.towerTypes]; [this.selectedTowerType] is one of them. *)
Inductive TowerType := basic | missile | laser | colony | playerAttack.

#[global] Instance TowerType_eq_dec : EqDecision TowerType.
Proof. solve_decision. Defined.

(** An entry of [this.towerTypes]. The entries [colony] and [playerAttack]
    have only [cost] and [name] in the source; their other fields are never
    read (a tower is built from [basic], [missile] or [laser] only) and are
    0 here. *)
Record ItemData := mkItemData {
  cost : Z;
  damage : Z;
  range : Q;
  fireRate : Z;
  color : string;
  name : string
}.

Definition towerTypes (type : TowerType) : ItemData :=
  match type with
  | basic => mkItemData 40 25 10 900 "#ff6b35" "BASIC"
  | missile => mkItemData 85 60 12 1400 "#e74c3c" "MISSILE"
  | laser => mkItemData 130 40 18 350 "#3498db" "LASER"
  | colony => mkItemData 200 0 0 0 EmptyString "COLONY"
  | playerAttack => mkItemData 1000 0 0 0 EmptyString "PLAYER ATTACK"
  end.

(** A reference to an enemy object. *)
Abbreviation ref := nat.

(** Builds [set v r]: the record [eta r] with the field [proj] replaced. *)
Ltac make_set eta proj v r :=
  let e := eval cbv beta delta [eta] in (eta r) in
  match eval pattern (proj r) in e with
  | ?f _ => let t := eval cbv beta in (f v) in exact t
  end.

Module Enemy.
(** [enemyData] of [spawnEnemy]; [position] and [disposed] are those of
    its [mesh]; [target] is an index into [this.towers]. *)
Record t := mk {
  position : Vector3;
  disposed : bool;
  health : Z;
  maxHealth : Z;
  speed : Q;
  pathIndex : nat;
  pathProgress : Q;
  reward : Z;
  lastShot : Z;
  fireRate : Z;
  range : Q;
  target : option nat
}.
Definition eta (e : t) : t :=
  mk (position e) (disposed e) (health e) (maxHealth e) (speed e)
     (pathIndex e) (pathProgress e) (reward e) (lastShot e) (fireRate e)
     (range e) (target e).
Definition set_position (v : Vector3) (e : t) : t := ltac:(make_set eta position v e).
Definition set_disposed (v : bool) (e : t) : t := ltac:(make_set eta disposed v e).
Definition set_health (v : Z) (e : t) : t := ltac:(make_set eta health v e).
Definition set_pathIndex (v : nat) (e : t) : t := ltac:(make_set eta pathIndex v e).
Definition set_pathProgress (v : Q) (e : t) : t := ltac:(make_set eta pathProgress v e).
Definition set_lastShot (v : Z) (e : t) : t := ltac:(make_set eta lastShot v e).
Definition set_target (v : option nat) (e : t) : t := ltac:(make_set eta target v e).
End Enemy.

Module Tower.
(** The object built by [createTower]; [position] is that of its mesh
    ([base] and [turret] are the same mesh); [target] refers to an enemy. *)
Record t := mk {
  position : Vector3;
  type : TowerType;
  data : ItemData;
  lastFired : Z;
  target : option ref
}.
Definition eta (w : t) : t :=
  mk (position w) (type w) (data w) (lastFired w) (target w).
Definition set_lastFired (v : Z) (w : t) : t := ltac:(make_set eta lastFired v w).
Definition set_target (v : option ref) (w : t) : t := ltac:(make_set eta target v w).
End Tower.

Module Projectile.
(** An element of [this.projectiles]; [position] is that of its mesh. *)
Record t := mk {
  position : Vector3;
  direction : Vector3;
  speed : Q;
  damage : Z;
  target : option ref;
  life : Z;
  type : TowerType
}.
Definition eta (p : t) : t :=
  mk (position p) (direction p) (speed p) (damage p) (target p) (life p) (type p).
Definition set_position (v : Vector3) (p : t) : t := ltac:(make_set eta position v p).
Definition set_life (v : Z) (p : t) : t := ltac:(make_set eta life v p).
End Projectile.

Module EnemyProjectile.
(** An element of [this.enemyProjectiles]; it carries no damage. *)
Record t := mk {
  position : Vector3;
  direction : Vector3;
  speed : Q;
  target : option nat;
  life : Z
}.
Definition eta (p : t) : t :=
  mk (position p) (direction p) (speed p) (target p) (life p).
Definition set_position (v : Vector3) (p : t) : t := ltac:(make_set eta position v p).
Definition set_life (v : Z) (p : t) : t := ltac:(make_set eta life v p).
End EnemyProjectile.

Module Colony.
(** A [Colony] whose model has loaded; [position] is that of its mesh. *)
Record t := mk { position : Vector3 }.
End Colony.

(** The audio elements looked up by [startGameAfterVideo]. *)
Inductive Sound :=
  | damageSound | shotBasicSound | shotMissileSound | shotLaserSound
  | enemyShotSound | loreSound | lore2Sound | lore4Sound | lore5Sound.

(** One-way notifications of the simulation. *)
Inductive Effect :=
  | play (a : Sound)
  | createHitParticles (position : Vector3)
  | createExplosionParticles (position : Vector3)
  | createEnemyBombParticles (position : Vector3)
  | alert_GAME_OVER (score wave : Z)
  | playRandomMusic
  | startRain_startLightning
  | pauseMenu_show
  | pauseMenu_hide.

(** What an [async] method waits for, with the locals it resumes with. *)
Inductive Pending :=
  | await_createTower (position : Vector3) (type : TowerType) (itemData : ItemData)
  | await_createColony (position : Vector3) (itemData : ItemData)
  | await_createPlayer
  | await_animation
  | await_enemyModel (baseHealth : Z) (baseSpeed : Q) (baseReward : Z).

Record Game := Build_Game {
  gold : Z;
  lives : Z;
  score : Z;
  wave : Z;
  enemiesInWave : Z;
  enemiesSpawned : Z;
  selectedTowerType : TowerType;
  gameStarted : bool;
  isPaused : bool;
  firstEnemyKilled : bool;
  lore1PlayedOnPause : bool;
  lore4Played : bool;
  lore5Played : bool;
  towers : list Tower.t;
  enemies : list ref;
  projectiles : list Projectile.t;
  enemyProjectiles : list EnemyProjectile.t;
  colonies : list Colony.t;
  path : list Vector3;
  (** which audio elements exist, and whether [weatherSystem] does *)
  audio : Sound -> bool;
  weatherSystem : bool;
  (** the enemy objects ever created *)
  heap : gmap ref Enemy.t;
  (** the suspended [async] calls *)
  pending : list Pending;
  (** the notifications sent so far, oldest first *)
  fx : list Effect;
  (** [nextWaveBtn.disabled] *)
  nextWaveBtn_disabled : bool;
  (** [location.reload()] has been called *)
  reloadRequested : bool
}.

Definition eta (g : Game) : Game :=
  Build_Game (gold g) (lives g) (score g) (wave g) (enemiesInWave g)
    (enemiesSpawned g) (selectedTowerType g) (gameStarted g) (isPaused g)
    (firstEnemyKilled g) (lore1PlayedOnPause g) (lore4Played g) (lore5Played g)
    (towers g) (enemies g) (projectiles g) (enemyProjectiles g) (colonies g)
    (path g) (audio g) (weatherSystem g) (heap g) (pending g) (fx g)
    (nextWaveBtn_disabled g) (reloadRequested g).

Definition set_gold (v : Z) (g : Game) : Game := ltac:(make_set eta gold v g).
Definition set_lives (v : Z) (g : Game) : Game := ltac:(make_set eta lives v g).
Definition set_score (v : Z) (g : Game) : Game := ltac:(make_set eta score v g).
Definition set_wave (v : Z) (g : Game) : Game := ltac:(make_set eta wave v g).
Definition set_enemiesInWave (v : Z) (g : Game) : Game := ltac:(make_set eta enemiesInWave v g).
Definition set_enemiesSpawned (v : Z) (g : Game) : Game := ltac:(make_set eta enemiesSpawned v g).
Definition set_selectedTowerType (v : TowerType) (g : Game) : Game := ltac:(make_set eta selectedTowerType v g).
Definition set_gameStarted (v : bool) (g : Game) : Game := ltac:(make_set eta gameStarted v g).
Definition set_isPaused (v : bool) (g : Game) : Game := ltac:(make_set eta isPaused v g).
Definition set_firstEnemyKilled (v : bool) (g : Game) : Game := ltac:(make_set eta firstEnemyKilled v g).
Definition set_lore1PlayedOnPause (v : bool) (g : Game) : Game := ltac:(make_set eta lore1PlayedOnPause v g).
Definition set_lore4Played (v : bool) (g : Game) : Game := ltac:(make_set eta lore4Played v g).
Definition set_lore5Played (v : bool) (g : Game) : Game := ltac:(make_set eta lore5Played v g).
Definition set_towers (v : list Tower.t) (g : Game) : Game := ltac:(make_set eta towers v g).
Definition set_enemies (v : list ref) (g : Game) : Game := ltac:(make_set eta enemies v g).
Definition set_projectiles (v : list Projectile.t) (g : Game) : Game := ltac:(make_set eta projectiles v g).
Definition set_enemyProjectiles (v : list EnemyProjectile.t) (g : Game) : Game := ltac:(make_set eta enemyProjectiles v g).
Definition set_colonies (v : list Colony.t) (g : Game) : Game := ltac:(make_set eta colonies v g).
Definition set_heap (v : gmap ref Enemy.t) (g : Game) : Game := ltac:(make_set eta heap v g).
Definition set_pending (v : list Pending) (g : Game) : Game := ltac:(make_set eta pending v g).
Definition set_fx (v : list Effect) (g : Game) : Game := ltac:(make_set eta fx v g).
Definition set_nextWaveBtn_disabled (v : bool) (g : Game) : Game := ltac:(make_set eta nextWaveBtn_disabled v g).
Definition set_reloadRequested (v : bool) (g : Game) : Game := ltac:(make_set eta reloadRequested v g).

(** ** Control structures *)

Notation "s |> f" := (f s) (at level 45, left associativity, only parsing).

(** [for (let i = n - 1; i >= 0; i--) body(i)] *)
Fixpoint for_down {S : Type} (n : nat) (body : nat -> S -> S) (s : S) : S :=
  match n with
  | O => s
  | S i => for_down i body (body i s)
  end.

(** [for (let i = 0; i < n; i++) body(i)], the order of a [for ... of]
    over an array of [n] elements. *)
Definition for_up {S : Type} (n : nat) (body : nat -> S -> S) (s : S) : S :=
  foldl (fun s i => body i s) s (seq 0 n).

Definition emit (e : Effect) (s : Game) : Game := set_fx (fx s ++ [e]) s.

(** [if (this.a) { this.a.currentTime = 0; this.a.play(); }] *)
Definition playSound (a : Sound) (s : Game) : Game :=
  if audio s a then emit (play a) s else s.

(** Writes a mutated enemy object back. *)
Definition store (r : ref) (enemy : Enemy.t) (s : Game) : Game :=
  set_heap (<[r := enemy]> (heap s)) s.

(** [enemy.mesh.dispose()] *)
Definition dispose (r : ref) (enemy : Enemy.t) (s : Game) : Game :=
  store r (Enemy.set_disposed true enemy) s.

Definition suspend (p : Pending) (s : Game) : Game :=
  set_pending (pending s ++ [p]) s.

(** ** The constructor and [createEnhancedPath] *)

Definition pathPoints : list Vector3 :=
  map (fun '(px, pz) => mkVector3 (Number.ofZ px) 0 (Number.ofZ pz))
    [(-400, 0); (-300, 100); (-100, 150); (100, 100); (300, 0); (400, -100);
     (200, -150); (0, -100); (-200, 0); (-300, 100); (-100, 150); (100, 100);
     (300, 0); (400, -100); (200, -150); (0, -100); (-200, 0); (-400, 100);
     (-500, 200)].

Definition createEnhancedPath : list Vector3 :=
  map (Vec.set_y 0.15%Q) pathPoints.

(** The game once [startGameAfterVideo] has run; [sounds] tells which
    audio elements the page has. *)
Definition initial (sounds : Sound -> bool) : Game :=
  {| gold := 600; lives := 25; score := 0; wave := 0; enemiesInWave := 4;
     enemiesSpawned := 0; selectedTowerType := basic; gameStarted := false;
     isPaused := false; firstEnemyKilled := false;
     lore1PlayedOnPause := false; lore4Played := false; lore5Played := false;
     towers := []; enemies := []; projectiles := []; enemyProjectiles := [];
     colonies := []; path := createEnhancedPath; audio := sounds;
     weatherSystem := true; heap := ∅; pending := []; fx := [];
     nextWaveBtn_disabled := false; reloadRequested := false |}.

(** ** The methods of [TowerDefenseGame] *)

Section Simulation.
Context `{MathSqrt}.

(** *** [activatePlayerAttack] *)

(** Up to [await createPlayer(...)]. *)
Definition activatePlayerAttack (s : Game) : Game :=
  if isPaused s then s
  else if bool_decide (length (enemies s) = 0%nat) then s
  else suspend await_createPlayer s.

(** From the loaded model to [beginAnimation], which keeps the callback. *)
Definition activatePlayerAttack_loaded (s : Game) : Game :=
  suspend await_animation s.

(** One turn of the loop in the callback of [beginAnimation]. *)
Definition playerAttack_body (i : nat) (s : Game) : Game :=
  match enemies s !! i with
  | None => s
  | Some r =>
    match heap s !! r with
    | None => s
    | Some enemy =>
      s |> emit (createExplosionParticles (Enemy.position enemy))
        |> dispose r enemy
        |> set_enemies (delete i (enemies s))
        |> set_gold (gold s + Enemy.reward enemy)
        |> set_score (score s + Enemy.reward enemy * 15)
    end
  end.

Definition playerAttack_onAnimationEnd (s : Game) : Game :=
  for_down (length (enemies s)) playerAttack_body s.

(** *** [togglePause] *)

Definition togglePause (s : Game) : Game :=
  let s := set_isPaused (negb (isPaused s)) s in
  if isPaused s then
    let s := emit pauseMenu_show s in
    if negb (lore1PlayedOnPause s) && audio s loreSound
    then s |> emit (play loreSound) |> set_lore1PlayedOnPause true
    else s
  else emit pauseMenu_hide s.

(** *** [placeTower] *)

(** The three loops of [placeTower] that clear [validPosition]. *)
Definition validPosition (position : Vector3) (s : Game) : bool :=
  let validPosition := true in
  let validPosition :=
    if existsb (fun tower =>
         Number.ltb (Vec.Distance position (Tower.position tower)) 6) (towers s)
    then false else validPosition in
  let validPosition :=
    if existsb (fun colony =>
         Number.ltb (Vec.Distance position (Colony.position colony)) 10) (colonies s)
    then false else validPosition in
  let validPosition :=
    if existsb (fun pathPoint =>
         Number.ltb (Vec.Distance position pathPoint) 4) (path s)
    then false else validPosition in
  validPosition.

(** Up to the first [await]; for [playerAttack] that is the one inside
    [activatePlayerAttack], after the debit. *)
Definition placeTower (position : Vector3) (s : Game) : Game :=
  if isPaused s then s
  else
    let itemData := towerTypes (selectedTowerType s) in
    if gold s >=? cost itemData then
      if validPosition position s then
        match selectedTowerType s with
        | colony => suspend (await_createColony position itemData) s
        | playerAttack =>
            s |> set_gold (gold s - cost itemData) |> activatePlayerAttack
        | type => suspend (await_createTower position type itemData) s
        end
      else s
    else s.

(** [createTower] once its model has loaded. *)
Definition createTower (position : Vector3) (type : TowerType) : Tower.t :=
  Tower.mk (Vec.set_y 1 position) type (towerTypes type) 0 None.

(** [placeTower] after [await this.createTower(...)]. *)
Definition placeTower_towerLoaded
    (position : Vector3) (type : TowerType) (itemData : ItemData) (s : Game) : Game :=
  s |> set_towers (towers s ++ [createTower position type])
    |> set_gold (gold s - cost itemData).

(** [placeTower] after [await this.createColony(...)]; [Colony.loadModel]
    puts the mesh at height 0.1. *)
Definition placeTower_colonyLoaded
    (position : Vector3) (itemData : ItemData) (s : Game) : Game :=
  s |> set_colonies (colonies s ++ [Colony.mk (Vec.set_y 0.1%Q position)])
    |> set_gold (gold s - cost itemData).

Definition placeTowerAtCrosshair (pickedPoint : option Vector3) (s : Game) : Game :=
  if isPaused s then s
  else match pickedPoint with
       | Some position => placeTower position s
       | None => s
       end.

(** *** [selectTowerType]: the method, then the global function *)

Definition selectTowerType
    (type : TowerType) (pickedPoint : option Vector3) (s : Game) : Game :=
  let s := set_selectedTowerType type s in
  if bool_decide (type = playerAttack) then placeTowerAtCrosshair pickedPoint s
  else s.

Definition global_selectTowerType
    (type : TowerType) (pickedPoint : option Vector3) (s : Game) : Game :=
  if negb (isPaused s) then selectTowerType type pickedPoint s else s.

(** *** [spawnEnemies] and [spawnEnemy] *)

(** Up to [await this.loadModel(...)]. *)
Definition spawnEnemy (s : Game) : Game :=
  if bool_decide (length (path s) = 0%nat) then s
  else
    let '(baseHealth, baseSpeed, baseReward) :=
      if wave s >? 1 then (100, 0.0025%Q, 25) else (60, 0.002%Q, 15) in
    suspend (await_enemyModel baseHealth baseSpeed baseReward) s.

(** After the model has loaded; [this.wave] is read now. With an empty
    path [this.path[0].clone()] throws and nothing is pushed. *)
Definition spawnEnemy_loaded
    (baseHealth : Z) (baseSpeed : Q) (baseReward : Z) (s : Game) : Game :=
  match path s with
  | [] => s
  | path0 :: _ =>
    let enemyData :=
      Enemy.mk (Vec.set_y 1 path0) false
        (baseHealth + wave s * 20) (baseHealth + wave s * 20)
        (Number.add baseSpeed (Number.mul (Number.ofZ (wave s)) 0.0004%Q))
        0 0 (baseReward + wave s * 2) 0 2000 15 None in
    let r := fresh (dom (heap s)) in
    s |> store r enemyData
      |> set_enemies (enemies s ++ [r])
      |> set_enemiesSpawned (enemiesSpawned s + 1)
  end.

Definition spawnEnemies (random : Q) (s : Game) : Game :=
  if negb (gameStarted s) || (enemiesSpawned s >=? enemiesInWave s) || isPaused s
  then s
  else if Number.ltb random 0.008%Q then spawnEnemy s else s.

(** *** [fireEnemyProjectile] and [updateEnemies] *)

Definition fireEnemyProjectile (enemy : Enemy.t) (s : Game) : Game :=
  match Enemy.target enemy with
  | None => s
  | Some k =>
    if isPaused s then s
    else
      match towers s !! k with
      | None => s
      | Some tower =>
        let position := Enemy.position enemy in
        let position := Vec.set_y (Number.add (_y position) 0.5%Q) position in
        let direction :=
          Vec.normalize (Vec.subtract (Tower.position tower) position) in
        s |> playSound enemyShotSound
          |> set_enemyProjectiles
               (enemyProjectiles s ++
                [EnemyProjectile.mk position direction 1.5%Q (Some k) 0])
      end
  end.

(** The search loop of [updateEnemies] over [this.towers]. *)
Definition closestTower (from : Vector3) (range : Q) (s : Game) : option nat :=
  fst (foldl (fun '(target, closestDist) '(k, tower) =>
                let dist := Vec.Distance from (Tower.position tower) in
                if Number.ltb dist closestDist then (Some k, dist)
                else (target, closestDist))
             (None, range) (imap pair (towers s))).

(** The enemy one step further along the path. *)
Definition moveAlongPath (path : list Vector3) (enemy : Enemy.t) : Enemy.t :=
  let enemy :=
    Enemy.set_pathProgress
      (Number.add (Enemy.pathProgress enemy) (Enemy.speed enemy)) enemy in
  let enemy :=
    if Number.leb 1 (Enemy.pathProgress enemy)
    then enemy |> Enemy.set_pathIndex (S (Enemy.pathIndex enemy))
               |> Enemy.set_pathProgress 0%Q
    else enemy in
  if Z.of_nat (Enemy.pathIndex enemy) <? Z.of_nat (length path) - 1 then
    match path !! Enemy.pathIndex enemy, path !! S (Enemy.pathIndex enemy) with
    | Some a, Some b =>
        Enemy.set_position
          (Vec.set_y 1 (Vec.Lerp a b (Enemy.pathProgress enemy))) enemy
    | _, _ => enemy
    end
  else enemy.

(** One turn of the loop of [updateEnemies], at index [i]. *)
Definition updateEnemies_body (currentTime : Z) (i : nat) (s : Game) : Game :=
  match enemies s !! i with
  | None => s
  | Some r =>
    match heap s !! r with
    | None => s
    | Some enemy =>
      if Z.of_nat (Enemy.pathIndex enemy) <? Z.of_nat (length (path s)) - 1 then
        let enemy := moveAlongPath (path s) enemy in
        let s := store r enemy s in
        if Enemy.health enemy <=? 0 then
          let s :=
            if negb (firstEnemyKilled s) && audio s lore2Sound
            then s |> emit (play lore2Sound) |> set_firstEnemyKilled true
            else s in
          s |> set_gold (gold s + Enemy.reward enemy)
            |> set_score (score s + Enemy.reward enemy * 15)
            |> dispose r enemy
            |> set_enemies (delete i (enemies s))
        else
          let target :=
            closestTower (Enemy.position enemy) (Enemy.range enemy) s in
          let enemy := Enemy.set_target target enemy in
          let s := store r enemy s in
          match target with
          | None => s
          | Some _ =>
            if currentTime - Enemy.lastShot enemy >? Enemy.fireRate enemy then
              s |> fireEnemyProjectile enemy
                |> store r (Enemy.set_lastShot currentTime enemy)
            else s
          end
      else
        let s :=
          s |> set_lives (lives s - 1)
            |> dispose r enemy
            |> set_enemies (delete i (enemies s)) in
        if lives s <=? 0 then
          s |> emit (alert_GAME_OVER (score s) (wave s))
            |> set_reloadRequested true
        else s
    end
  end.

Definition updateEnemies (currentTime : Z) (s : Game) : Game :=
  if isPaused s then s
  else for_down (length (enemies s)) (updateEnemies_body currentTime) s.

(** *** [fireProjectile] and [updateTowers] *)

Definition shotSound (type : TowerType) (s : Game) : Game :=
  match type with
  | basic => playSound shotBasicSound s
  | missile => playSound shotMissileSound s
  | laser => playSound shotLaserSound s
  | _ => s
  end.

(** Where a projectile of the tower starts: half a unit above the turret. *)
Definition muzzle (tower : Tower.t) : Vector3 :=
  let position := Tower.position tower in
  Vec.set_y (Number.add (_y position) 0.5%Q) position.

Definition fireProjectile (tower : Tower.t) (s : Game) : Game :=
  match Tower.target tower with
  | None => s
  | Some r =>
    if isPaused s then s
    else
      match heap s !! r with
      | None => s
      | Some target =>
        let position := muzzle tower in
        let direction :=
          Vec.normalize (Vec.subtract (Enemy.position target) position) in
        s |> shotSound (Tower.type tower)
          |> set_projectiles
               (projectiles s ++
                [Projectile.mk position direction 2.2%Q
                   (damage (Tower.data tower)) (Some r) 0 (Tower.type tower)])
      end
  end.

(** The search loop of [updateTowers] over [this.enemies]. *)
Definition closestEnemy (from : Vector3) (range : Q) (s : Game) : option ref :=
  fst (foldl (fun '(target, closestDist) r =>
                match heap s !! r with
                | None => (target, closestDist)
                | Some enemy =>
                  let dist := Vec.Distance from (Enemy.position enemy) in
                  if Number.ltb dist closestDist then (Some r, dist)
                  else (target, closestDist)
                end)
             (None, range) (enemies s)).

(** One turn of the loop of [updateTowers], for the tower at index [k]. *)
Definition updateTowers_body (currentTime : Z) (k : nat) (s : Game) : Game :=
  match towers s !! k with
  | None => s
  | Some tower =>
    let target :=
      closestEnemy (Tower.position tower) (range (Tower.data tower)) s in
    let tower := Tower.set_target target tower in
    let s := set_towers (<[k := tower]> (towers s)) s in
    match target with
    | None => s
    | Some _ =>
      if currentTime - Tower.lastFired tower >? fireRate (Tower.data tower) then
        s |> fireProjectile tower
          |> set_towers (<[k := Tower.set_lastFired currentTime tower]> (towers s))
      else s
    end
  end.

Definition updateTowers (currentTime : Z) (s : Game) : Game :=
  if isPaused s then s
  else for_up (length (towers s)) (updateTowers_body currentTime) s.

(** *** [updateProjectiles] *)

(** [proj.mesh.position.addInPlace(proj.direction.scale(proj.speed));
    proj.life++] *)
Definition advance (proj : Projectile.t) : Projectile.t :=
  proj |> Projectile.set_position
            (Vec.add (Projectile.position proj)
               (Vec.scale (Projectile.direction proj) (Projectile.speed proj)))
       |> Projectile.set_life (Projectile.life proj + 1).

(** The hit test: the target, when the projectile has one whose mesh is
    not disposed and is nearer than 1.8. *)
Definition hitTarget (proj : Projectile.t) (s : Game) : option (ref * Enemy.t) :=
  match Projectile.target proj with
  | None => None
  | Some r =>
    match heap s !! r with
    | None => None
    | Some target =>
      if negb (Enemy.disposed target)
         && Number.ltb (Vec.Distance (Projectile.position proj)
                          (Enemy.position target)) 1.8%Q
      then Some (r, target) else None
    end
  end.

(** One turn of the loop of [updateProjectiles], at index [i]. *)
Definition updateProjectiles_body (i : nat) (s : Game) : Game :=
  match projectiles s !! i with
  | None => s
  | Some proj =>
    let proj := advance proj in
    let s := set_projectiles (<[i := proj]> (projectiles s)) s in
    match hitTarget proj s with
    | Some (r, target) =>
      let s :=
        s |> store r (Enemy.set_health
                        (Enemy.health target - Projectile.damage proj) target)
          |> playSound damageSound
          |> emit (createHitParticles (Enemy.position target)) in
      let s :=
        if bool_decide (Projectile.type proj = missile)
        then emit (createExplosionParticles (Projectile.position proj)) s
        else s in
      set_projectiles (delete i (projectiles s)) s
    | None =>
      if Projectile.life proj >? 100
      then set_projectiles (delete i (projectiles s)) s
      else s
    end
  end.

Definition updateProjectiles (s : Game) : Game :=
  if isPaused s then s
  else for_down (length (projectiles s)) updateProjectiles_body s.

(** *** [updateEnemyProjectiles] *)

Definition advanceEnemyProjectile (proj : EnemyProjectile.t) : EnemyProjectile.t :=
  proj |> EnemyProjectile.set_position
            (Vec.add (EnemyProjectile.position proj)
               (Vec.scale (EnemyProjectile.direction proj)
                  (EnemyProjectile.speed proj)))
       |> EnemyProjectile.set_life (EnemyProjectile.life proj + 1).

(** The mesh of a tower is never disposed. *)
Definition hitTower (proj : EnemyProjectile.t) (s : Game) : bool :=
  match EnemyProjectile.target proj with
  | None => false
  | Some k =>
    match towers s !! k with
    | None => false
    | Some tower =>
      Number.ltb (Vec.Distance (EnemyProjectile.position proj)
                    (Tower.position tower)) 1.8%Q
    end
  end.

Definition updateEnemyProjectiles_body (i : nat) (s : Game) : Game :=
  match enemyProjectiles s !! i with
  | None => s
  | Some proj =>
    let proj := advanceEnemyProjectile proj in
    let s := set_enemyProjectiles (<[i := proj]> (enemyProjectiles s)) s in
    if hitTower proj s then
      s |> emit (createEnemyBombParticles (EnemyProjectile.position proj))
        |> set_enemyProjectiles (delete i (enemyProjectiles s))
    else if EnemyProjectile.life proj >? 150
    then set_enemyProjectiles (delete i (enemyProjectiles s)) s
    else s
  end.

Definition updateEnemyProjectiles (s : Game) : Game :=
  if isPaused s then s
  else for_down (length (enemyProjectiles s)) updateEnemyProjectiles_body s.

(** *** [checkWaveComplete] *)

Definition checkWaveComplete (s : Game) : Game :=
  if gameStarted s && (enemiesSpawned s >=? enemiesInWave s)
     && bool_decide (length (enemies s) = 0%nat)
  then
    let waveBonus := 25 + wave s * 10 in
    s |> set_nextWaveBtn_disabled false
      |> set_gameStarted false
      |> set_gold (gold s + waveBonus)
      |> set_score (score s + waveBonus * 5)
  else s.

(** *** The global [startNextWave] *)

(** The lore audio of [startNextWave]; [random] is [Math.random()], a
    number in [0, 1). *)
Definition playRandomLore (random : Q) (s : Game) : Game :=
  let loreAudios :=
    (if negb (lore4Played s) && audio s lore4Sound then [lore4Sound] else [])
    ++ (if negb (lore5Played s) && audio s lore5Sound then [lore5Sound] else []) in
  if bool_decide (0 < length loreAudios)%nat then
    let index :=
      Qfloor (Number.mul random (Number.ofZ (Z.of_nat (length loreAudios)))) in
    match loreAudios !! Z.to_nat index with
    | Some lore4Sound => s |> emit (play lore4Sound) |> set_lore4Played true
    | Some lore5Sound => s |> emit (play lore5Sound) |> set_lore5Played true
    | _ => s
    end
  else s.

Definition startNextWave (random : Q) (game : Game) : Game :=
  if isPaused game then game
  else
    let game := set_wave (wave game + 1) game in
    let game :=
      game |> set_enemiesInWave (Z.min (3 + wave game * 2) 25)
           |> set_enemiesSpawned 0
           |> set_gameStarted true
           |> set_nextWaveBtn_disabled true
           |> emit playRandomMusic in
    let game := if wave game >=? 3 then playRandomLore random game else game in
    if weatherSystem game then emit startRain_startLightning game else game.

(** *** The frame callback of [startGameLoop] *)

Definition frame (timeEnemies timeTowers : Z) (random : Q) (s : Game) : Game :=
  if isPaused s then s
  else
    s |> updateEnemies timeEnemies
      |> updateTowers timeTowers
      |> updateProjectiles
      |> updateEnemyProjectiles
      |> spawnEnemies random
      |> checkWaveComplete.

(** ** The page as a transition system *)

(** What can happen to a loaded game: a rendered frame, a click on the
    canvas with the pointer locked, the weapon buttons, the next-wave
    command, the pause key, and the completion or the failure of a
    pending load, in any order. *)
Inductive Event :=
  | Frame (timeEnemies timeTowers : Z) (random : Q)
  | Click (pickedPoint : option Vector3)
  | SelectTowerType (type : TowerType) (pickedPoint : option Vector3)
  | StartNextWave (random : Q)
  | TogglePause
  | Resolve (k : nat)
  | Reject (k : nat).

Definition resume (p : Pending) (s : Game) : Game :=
  match p with
  | await_createTower position type itemData =>
      placeTower_towerLoaded position type itemData s
  | await_createColony position itemData =>
      placeTower_colonyLoaded position itemData s
  | await_createPlayer => activatePlayerAttack_loaded s
  | await_animation => playerAttack_onAnimationEnd s
  | await_enemyModel baseHealth baseSpeed baseReward =>
      spawnEnemy_loaded baseHealth baseSpeed baseReward s
  end.

(** Once [location.reload()] has been called the page is on its way out
    and nothing more is delivered to this game. *)
Definition step (e : Event) (s : Game) : Game :=
  if reloadRequested s then s
  else
    match e with
    | Frame timeEnemies timeTowers random =>
        frame timeEnemies timeTowers random s
    | Click pickedPoint => placeTowerAtCrosshair pickedPoint s
    | SelectTowerType type pickedPoint =>
        global_selectTowerType type pickedPoint s
    | StartNextWave random => startNextWave random s
    | TogglePause => togglePause s
    | Resolve k =>
        match pending s !! k with
        | Some p => resume p (set_pending (delete k (pending s)) s)
        | None => s
        end
    | Reject k => set_pending (delete k (pending s)) s
    end.

Definition run (es : list Event) (s : Game) : Game :=
  foldl (fun s e => step e s) s es.

Definition reachable (s : Game) : Prop :=
  exists sounds es, s = run es (initial sounds).

End Simulation.

(** * Vocabulary of the properties *)

(** A helper that only sends notifications changes [fx] and nothing else. *)
Definition only_fx (f : Game -> Game) : Prop :=
  forall s, f s = set_fx (fx (f s)) s.

(** The hit test reads the position and the disposal flag of the target,
    and a pass over the projectiles changes neither. *)
Definition same_meshes (h h' : gmap ref Enemy.t) : Prop :=
  forall r,
    (fun e => (Enemy.position e, Enemy.disposed e)) <$> h !! r
    = (fun e => (Enemy.position e, Enemy.disposed e)) <$> h' !! r.

(** Every enemy object carries a reward that is not negative. *)
Definition rewards_ok (h : gmap ref Enemy.t) : Prop :=
  forall r e, h !! r = Some e -> 0 <= Enemy.reward e.

Definition pending_ok (p : Pending) : Prop :=
  match p with
  | await_enemyModel _ _ baseReward => 0 <= baseReward
  | _ => True
  end.

(** What the score argument needs of a game. *)
Definition score_inv (s : Game) : Prop :=
  0 <= wave s /\ rewards_ok (heap s) /\ Forall pending_ok (pending s).

(** [s'] comes from [s] by steps that touch neither gold nor score. *)
Definition quiet (s s' : Game) : Prop :=
  gold s' = gold s /\ score s' = score s /\ wave s' = wave s
  /\ pending s' = pending s
  /\ (rewards_ok (heap s) -> rewards_ok (heap s')).

(** [s'] comes from [s] by steps that credit rewards: the score rises by
    15 times what gold rises by. *)
Definition kills (s s' : Game) : Prop :=
  wave s' = wave s /\ pending s' = pending s
  /\ score s' - score s = 15 * (gold s' - gold s)
  /\ (rewards_ok (heap s) -> rewards_ok (heap s') /\ gold s <= gold s').

(** [s'] comes from [s] by a step that leaves the score alone and
    keeps what the score argument needs. *)
Definition idle (s s' : Game) : Prop :=
  score s' = score s /\ (score_inv s -> score_inv s').

(** The enemy list has no reference twice and every reference in it
    resolves. *)
Definition registry_ok (s : Game) : Prop :=
  NoDup (enemies s) /\ forall r, r ∈ enemies s -> is_Some (heap s !! r).

(** [s'] comes from [s] by steps that only take enemies off the list and
    forget no enemy object. *)
Definition culls (s s' : Game) : Prop :=
  enemies s' `sublist_of` enemies s
  /\ forall r, is_Some (heap s !! r) -> is_Some (heap s' !! r).

(** The same, by steps that leave the projectiles alone. *)
Definition bystander (s s' : Game) : Prop :=
  projectiles s' = projectiles s /\ culls s s'.

(** The enemy [r] stands at the last waypoint. *)
Definition at_end (s : Game) (r : ref) : bool :=
  match heap s !! r with
  | Some enemy =>
      negb (Z.of_nat (Enemy.pathIndex enemy) <? Z.of_nat (length (path s)) - 1)
  | None => false
  end.

(** The enemy [r] is on its way and its health is used up. *)
Definition dies (s : Game) (r : ref) : bool :=
  match heap s !! r with
  | Some enemy =>
      (Z.of_nat (Enemy.pathIndex enemy) <? Z.of_nat (length (path s)) - 1)
      && (Enemy.health enemy <=? 0)
  | None => false
  end.

(** The gold that the next pass of [updateEnemies] credits for [r]. *)
Definition bounty (s : Game) (r : ref) : Z :=
  match heap s !! r with
  | Some enemy => if dies s r then Enemy.reward enemy else 0
  | None => 0
  end.

Fixpoint sum (l : list Z) : Z :=
  match l with
  | [] => 0
  | n :: l => n + sum l
  end.

(** A projectile as [fireProjectile] makes it in the game [s]: at the
    muzzle of a tower, pointed at where its target is in [s]. *)
Definition aimed `{MathSqrt} (s : Game) (proj : Projectile.t) : Prop :=
  exists (tower : Tower.t) (r : ref) (target : Enemy.t),
    heap s !! r = Some target
    /\ Projectile.target proj = Some r
    /\ Projectile.position proj = muzzle tower
    /\ Projectile.direction proj =
         Vec.normalize (Vec.subtract (Enemy.position target) (muzzle tower))
    /\ Projectile.life proj = 0.

(** What a pass of [updateProjectiles] makes of one projectile: it is
    advanced, and dropped when it hits or when it is too old. *)
Definition survive `{MathSqrt} (s : Game) (proj : Projectile.t) : option Projectile.t :=
  let proj := advance proj in
  match hitTarget proj s with
  | Some _ => None
  | None => if Projectile.life proj >? 100 then None else Some proj
  end.

(** One event: the score does not fall, and it moves only as rewards
    (15 times the gold credited for enemies) and wave bonuses (5 times
    the gold credited by [checkWaveComplete]) are credited. *)
Definition score_credit `{MathSqrt} (e : Event) (s : Game) : Prop :=
  let s' := step e s in
  match e with
  | Frame timeEnemies _ _ =>
      let s1 := if isPaused s || reloadRequested s then s
                else updateEnemies timeEnemies s in
      score s' = score s + 15 * (gold s1 - gold s) + 5 * (gold s' - gold s1)
      /\ gold s <= gold s1 <= gold s'
  | Resolve k =>
      match pending s !! k with
      | Some await_animation =>
          score s' = score s + 15 * (gold s' - gold s) /\ gold s <= gold s'
      | _ => score s' = score s
      end
  | _ => score s' = score s
  end.

(** * Concrete games

    They are run with [sqrt_fixed] for the square root. *)

(** A page with every audio element. *)
Definition all_sounds : Sound -> bool := fun _ => true.

Definition new_game : Game := initial all_sounds.

(** Wave 1 under way, one enemy on the path. *)
Definition wave1_one_enemy : Game :=
  run (H := sqrt_fixed) [StartNextWave 0; Frame 0 0 0; Resolve 0] new_game.

(** Wave 1 with all its five enemies spawned and gone. *)
Definition wave1_cleared : Game :=
  new_game |> startNextWave 0 |> set_enemiesSpawned 5.

(** A spot of the map away from every waypoint. *)
Definition meadow : Vector3 := mkVector3 0 0 0.

(** Four clicks for a colony (200 gold each) at the same spot, each made
    before the model of the one before has loaded, then the four loads. *)
Definition four_colonies_at_once : list Event :=
  [SelectTowerType colony None;
   Click (Some meadow); Click (Some meadow); Click (Some meadow);
   Click (Some meadow);
   Resolve 0; Resolve 0; Resolve 0; Resolve 0].

(** Wave 1, 26 spawns asked for in 26 frames while no model has loaded
    yet, the 26 loads, and [n] frames. *)
Definition twenty_six_abreast (n : nat) : list Event :=
  [StartNextWave 0] ++ replicate 26 (Frame 0 0 0) ++ replicate 26 (Resolve 0)
  ++ replicate n (Frame 1 1 1).

(** Scenario B: a basic tower six units from the start of the path and an
    enemy of health 60 (the enemy [spawnEnemy] builds at wave 0). *)
Definition duel : Game :=
  new_game
    |> placeTower_towerLoaded (mkVector3 (-394) 0 0) basic (towerTypes basic)
    |> spawnEnemy_loaded 60 0.002%Q 15.

(** Frames of the duel, with their clock: the tower fires at 1000, hits at
    1016, is not ready at 1900, fires at 1901, hits at 1917, fires at 2802,
    hits at 2820; at 2830 [updateEnemies] finds the enemy dead. *)
Definition duel_frames : list Event :=
  map (fun t => Frame t t 1)
    [1000; 1016; 1900; 1901; 1917; 1934; 2802; 2820; 2830].

Definition duel_after (n : nat) : Game :=
  run (H := sqrt_fixed) (take n duel_frames) duel.

Definition count_hits (s : Game) : nat :=
  length (List.filter
            (fun e => match e with createHitParticles _ => true | _ => false end)
            (fx s)).

(** The enemy of wave 1 standing on the last waypoint, in full health. *)
Definition runner : Enemy.t :=
  Enemy.mk (mkVector3 (-500) 1 200) false 80 80 0.0024%Q 18 0 17 0 2000 15 None.

Definition enemy_at_the_end : Game := store 0 runner wave1_one_enemy.

(** The enemy object with reference 0, the only enemy of these games. *)
Definition duellist (s : Game) : Enemy.t := default runner (heap s !! 0%nat).

(** Wave 1 with its first enemy walked up to the last waypoint. *)
Definition long_walk : list Event :=
  [StartNextWave 0; Frame 0 0 0; Resolve 0] ++ replicate 7506 (Frame 1 1 1).

Definition at_the_gate : Game := run (H := sqrt_fixed) long_walk new_game.

(** A basic tower is put by the last waypoint and wave 1 starts with one
    enemy (health 80, reward 17), which needs 7506 frames to come to the
    last waypoint. The clock stands at 1 until the enemy is in range of
    the tower and then at 1000, 2000, 3000 and 4000, so the tower fires
    four times; its fourth projectile hits in frame 7505. *)
Definition last_stand_clock : list Z :=
  replicate 7459 1 ++ replicate 15 1000 ++ replicate 15 2000
  ++ replicate 13 3000 ++ replicate 4 4000.

Definition last_stand (n : nat) : list Event :=
  [Click (Some (mkVector3 (-495) 0 195)); Resolve 0;
   StartNextWave 0; Frame 0 0 0; Resolve 0]
  ++ map (fun t => Frame t t 1) (take n last_stand_clock).

Definition last_stand_after (n : nat) : Game :=
  run (H := sqrt_fixed) (last_stand n) new_game.

(** A basic tower is put six units from the start of the path, wave 1
    starts and its first enemy (health 80, reward 17) comes on; then
    frames at the given clock values. *)
Definition skirmish (clock : list Z) : list Event :=
  [Click (Some (mkVector3 (-394) 0 0)); Resolve 0;
   StartNextWave 0; Frame 0 0 0; Resolve 0]
  ++ map (fun t => Frame t t 1) clock.

Definition skirmish_after (clock : list Z) : Game :=
  run (H := sqrt_fixed) (skirmish clock) new_game.

(** The clock of four shots and four hits. *)
Definition four_hits : list Z := [1000; 1016; 1901; 1917; 2802; 2820; 3703; 3720].

(** A projectile of age 100 that flies away from everything. *)
Definition stray : Projectile.t :=
  Projectile.mk (mkVector3 0 1.5%Q 0) (mkVector3 0 1 0) 2.2%Q 25 None 100 basic.

(** * Properties *)

(** ** What the small helpers leave alone *)

Lemma set_fx_same (s : Game) : set_fx (fx s) s = s.
Proof. by destruct s. Qed.

Lemma emit_only_fx (e : Effect) : only_fx (emit e).
Proof. by intros []. Qed.

Lemma playSound_only_fx (a : Sound) : only_fx (playSound a).
Proof. intros s. unfold playSound. case_match; by destruct s. Qed.

Section Properties.
Context `{MathSqrt}.

Lemma shotSound_only_fx (type : TowerType) : only_fx (shotSound type).
Proof.
  intros s. destruct type; simpl;
    try apply playSound_only_fx; by rewrite set_fx_same.
Qed.

(** [playRandomLore] changes the notification log and the two flags. *)
Lemma playRandomLore_frame (random : Q) (s : Game) :
  let s' := playRandomLore random s in
  s' = s |> set_lore4Played (lore4Played s')
         |> set_lore5Played (lore5Played s')
         |> set_fx (fx s').
Proof. unfold playRandomLore. repeat case_match; by destruct s. Qed.

(** ** The wave director *)

Lemma startNextWave_unpaused (random : Q) (s : Game) :
  isPaused s = false ->
  let s' := startNextWave random s in
  wave s' = wave s + 1
  /\ enemiesInWave s' = Z.min (3 + (wave s + 1) * 2) 25
  /\ enemiesSpawned s' = 0
  /\ gameStarted s' = true
  /\ nextWaveBtn_disabled s' = true.
Proof.
  intros Hp. unfold startNextWave. rewrite Hp.
  repeat case_match; try rewrite playRandomLore_frame; simpl; auto.
Qed.

Lemma checkWaveComplete_fires (s : Game) :
  gameStarted s = true ->
  enemiesInWave s <= enemiesSpawned s ->
  enemies s = [] ->
  checkWaveComplete s =
    s |> set_nextWaveBtn_disabled false
      |> set_gameStarted false
      |> set_gold (gold s + (25 + wave s * 10))
      |> set_score (score s + (25 + wave s * 10) * 5).
Proof.
  intros Hg Hn He. unfold checkWaveComplete.
  rewrite Hg, He. simpl.
  destruct (Z.geb_spec (enemiesSpawned s) (enemiesInWave s)); [done | lia].
Qed.

(** C5. Starting wave [n] (the call that raises the wave number from
    [n - 1] to [n]) sets enemies-in-wave to [min(3 + 2n, 25)] and the
    spawned counter to 0, so wave 1 has 5 enemies; and when a started
    wave has spawned all its enemies and none is alive,
    [checkWaveComplete] credits [25 + 10n] gold, 35 for wave 1. *)
Theorem wave_start_and_completion (random : Q) (s c : Game) :
  isPaused s = false ->
  gameStarted c = true ->
  enemiesInWave c <= enemiesSpawned c ->
  length (enemies c) = 0%nat ->
  let s' := startNextWave random s in
  let c' := checkWaveComplete c in
  (wave s' = wave s + 1
   /\ enemiesInWave s' = Z.min (3 + wave s' * 2) 25
   /\ enemiesSpawned s' = 0
   /\ (wave s' = 1 -> enemiesInWave s' = 5))
  /\ (gold c' = gold c + (25 + wave c * 10)
      /\ gameStarted c' = false
      /\ (wave c = 1 -> gold c' = gold c + 35)).
Proof.
  intros Hp Hg Hn He s' c'.
  destruct (startNextWave_unpaused random s Hp) as (Hw & Hi & Hs & _).
  fold s' in Hw, Hi, Hs.
  apply length_zero_iff_nil in He.
  split.
  - rewrite Hw. repeat split; try done.
    rewrite Hi. intros ->. reflexivity.
  - subst c'. rewrite (checkWaveComplete_fires c Hg Hn He). simpl.
    repeat split; try done. intros ->. reflexivity.
Qed.

(** C1, as the code has it. [startNextWave] looks at the pause flag only:
    while the game is paused it changes nothing, and while a wave is
    active and the game is not paused it starts the next wave all the
    same (the wave number goes up by one, enemies-in-wave is recomputed,
    the spawned counter goes back to 0). What it does against a second
    start is to disable the next-wave button. *)
Theorem startNextWave_guard (random : Q) (s : Game) :
  (isPaused s = true -> startNextWave random s = s)
  /\ (isPaused s = false ->
      gameStarted s = true ->
      enemiesSpawned s < enemiesInWave s ->
      let s' := startNextWave random s in
      wave s' = wave s + 1
      /\ enemiesInWave s' = Z.min (3 + (wave s + 1) * 2) 25
      /\ enemiesSpawned s' = 0
      /\ nextWaveBtn_disabled s' = true).
Proof.
  split.
  - intros Hp. unfold startNextWave. by rewrite Hp.
  - intros Hp _ _ s'.
    destruct (startNextWave_unpaused random s Hp) as (? & ? & ? & _ & ?).
    auto.
Qed.

(** ** Placement *)

(** A position is refused exactly when it is too near a tower, a colony
    or a waypoint. *)
Lemma validPosition_false (position : Vector3) (s : Game) :
  validPosition position s = false <->
  (exists tower, tower ∈ towers s
     /\ Number.ltb (Vec.Distance position (Tower.position tower)) 6 = true)
  \/ (exists colony, colony ∈ colonies s
     /\ Number.ltb (Vec.Distance position (Colony.position colony)) 10 = true)
  \/ (exists pathPoint, pathPoint ∈ path s
     /\ Number.ltb (Vec.Distance position pathPoint) 4 = true).
Proof.
  unfold validPosition.
  set (t := existsb _ (towers s)). set (c := existsb _ (colonies s)).
  set (w := existsb _ (path s)).
  assert (Ht : t = true <-> exists tower, tower ∈ towers s
     /\ Number.ltb (Vec.Distance position (Tower.position tower)) 6 = true).
  { unfold t. rewrite existsb_exists. by setoid_rewrite list_elem_of_In. }
  assert (Hc : c = true <-> exists colony, colony ∈ colonies s
     /\ Number.ltb (Vec.Distance position (Colony.position colony)) 10 = true).
  { unfold c. rewrite existsb_exists. by setoid_rewrite list_elem_of_In. }
  assert (Hw : w = true <-> exists pathPoint, pathPoint ∈ path s
     /\ Number.ltb (Vec.Distance position pathPoint) 4 = true).
  { unfold w. rewrite existsb_exists. by setoid_rewrite list_elem_of_In. }
  rewrite <- Ht, <- Hc, <- Hw.
  destruct t, c, w; simpl; intuition congruence.
Qed.

(** C4. A placement that is refused, because gold is below the cost of
    the selected item or because the position is nearer than 6 to a
    tower, 10 to a colony or 4 to a waypoint, leaves the whole game
    as it was: gold, towers, colonies and enemies in particular, and no
    load is started. The same holds for the click that asked for it. *)
Theorem rejected_placement_changes_nothing (position : Vector3) (s : Game) :
  gold s < cost (towerTypes (selectedTowerType s))
  \/ (exists tower, tower ∈ towers s
      /\ Number.ltb (Vec.Distance position (Tower.position tower)) 6 = true)
  \/ (exists colony, colony ∈ colonies s
      /\ Number.ltb (Vec.Distance position (Colony.position colony)) 10 = true)
  \/ (exists pathPoint, pathPoint ∈ path s
      /\ Number.ltb (Vec.Distance position pathPoint) 4 = true) ->
  placeTower position s = s
  /\ step (Click (Some position)) s = s.
Proof.
  intros Hrej.
  assert (Hp : placeTower position s = s).
  { unfold placeTower. destruct (isPaused s); [done|].
    destruct Hrej as [Hgold | Hpos].
    - destruct (Z.geb_spec (gold s) (cost (towerTypes (selectedTowerType s))));
        [lia | done].
    - apply validPosition_false in Hpos. rewrite Hpos. by case_match. }
  split; [done|].
  unfold step, placeTowerAtCrosshair. rewrite Hp. by repeat case_match.
Qed.

(** C9. Buying the player attack at an accepted position while no enemy
    is alive takes the 1000 gold and does nothing else: the game is the
    same but for its gold, so no enemy is destroyed, no reward or score
    is credited, nothing is left pending and nothing is given back. *)
Theorem playerAttack_without_enemies (position : Vector3) (s : Game) :
  isPaused s = false ->
  selectedTowerType s = playerAttack ->
  1000 <= gold s ->
  validPosition position s = true ->
  length (enemies s) = 0%nat ->
  let s' := placeTower position s in
  s' = set_gold (gold s - 1000) s
  /\ gold s' = gold s - 1000
  /\ score s' = score s
  /\ enemies s' = enemies s
  /\ pending s' = pending s.
Proof.
  intros Hp Ht Hg Hv He s'.
  assert (Hs : s' = set_gold (gold s - 1000) s).
  { subst s'. unfold placeTower. rewrite Hp, Ht, Hv. simpl.
    destruct (Z.geb_spec (gold s) 1000); [|lia].
    unfold activatePlayerAttack. simpl. rewrite Hp, He. done. }
  rewrite Hs. done.
Qed.

(** ** Enemies at the end of the path *)

(** The turn of [updateEnemies] that finds an enemy at the last waypoint. *)
Lemma updateEnemies_body_at_end
    (currentTime : Z) (i : nat) (r : ref) (enemy : Enemy.t) (s : Game) :
  enemies s !! i = Some r ->
  heap s !! r = Some enemy ->
  Z.of_nat (length (path s)) - 1 <= Z.of_nat (Enemy.pathIndex enemy) ->
  let s' := updateEnemies_body currentTime i s in
  lives s' = lives s - 1
  /\ enemies s' = delete i (enemies s)
  /\ heap s' !! r = Some (Enemy.set_disposed true enemy)
  /\ gold s' = gold s
  /\ score s' = score s.
Proof.
  intros Hi Hr Hend s'. subst s'. unfold updateEnemies_body.
  rewrite Hi, Hr.
  destruct (Z.ltb_spec (Z.of_nat (Enemy.pathIndex enemy))
              (Z.of_nat (length (path s)) - 1)); [lia|].
  simpl. case_match; simpl; by rewrite lookup_insert_eq.
Qed.

(** ** Projectiles in flight *)

Lemma same_meshes_refl (h : gmap ref Enemy.t) : same_meshes h h.
Proof. done. Qed.

Lemma same_meshes_trans (h1 h2 h3 : gmap ref Enemy.t) :
  same_meshes h1 h2 -> same_meshes h2 h3 -> same_meshes h1 h3.
Proof. intros H12 H23 r. by rewrite H12. Qed.

Lemma same_meshes_set_health (h : gmap ref Enemy.t) (r : ref) (e : Enemy.t) (v : Z) :
  h !! r = Some e -> same_meshes h (<[r := Enemy.set_health v e]> h).
Proof.
  intros Hr r'. destruct (decide (r' = r)) as [->|Hne].
  - by rewrite lookup_insert_eq, Hr.
  - by rewrite lookup_insert_ne.
Qed.

Lemma hitTarget_heap (proj : Projectile.t) (s : Game) (r : ref) (target : Enemy.t) :
  hitTarget proj s = Some (r, target) ->
  Projectile.target proj = Some r /\ heap s !! r = Some target
  /\ Enemy.disposed target = false.
Proof.
  unfold hitTarget. intros Hh. repeat case_match; try done.
  simplify_eq. repeat split; try done.
  destruct (Enemy.disposed target); done.
Qed.

Lemma hitTarget_same_meshes (proj : Projectile.t) (s s' : Game) :
  same_meshes (heap s) (heap s') ->
  hitTarget proj s = None <-> hitTarget proj s' = None.
Proof.
  intros Hm. unfold hitTarget. destruct (Projectile.target proj) as [r|]; [|done].
  specialize (Hm r).
  destruct (heap s !! r) as [e|], (heap s' !! r) as [e'|]; simpl in Hm; try done.
  injection Hm as -> ->. by case_match.
Qed.

Lemma survive_same_meshes (proj : Projectile.t) (s s' : Game) :
  same_meshes (heap s) (heap s') -> survive s' proj = survive s proj.
Proof.
  intros Hm. unfold survive.
  pose proof (hitTarget_same_meshes (advance proj) s s' Hm) as Hiff.
  destruct (hitTarget (advance proj) s), (hitTarget (advance proj) s');
    try done; [by destruct Hiff as [_ Hc]; discriminate Hc
              |by destruct Hiff as [Hc _]; discriminate Hc].
Qed.

(** One turn of the loop: the projectile at [i] is replaced by what
    [survive] makes of it; gold, lives, score and the enemy list are not
    touched, and the meshes of the enemies stay where they are. *)
Lemma updateProjectiles_body_spec (i : nat) (proj : Projectile.t) (s : Game) :
  projectiles s !! i = Some proj ->
  let s' := updateProjectiles_body i s in
  projectiles s' =
    match survive s proj with
    | Some proj' => <[i := proj']> (projectiles s)
    | None => delete i (projectiles s)
    end
  /\ same_meshes (heap s) (heap s')
  /\ (hitTarget (advance proj) s = None -> heap s' = heap s /\ fx s' = fx s).
Proof.
  intros Hi s'. subst s'. unfold updateProjectiles_body, survive. rewrite Hi.
  assert (Hins : forall l : list Projectile.t,
    hitTarget (advance proj) (set_projectiles l s) = hitTarget (advance proj) s)
    by done.
  rewrite Hins.
  assert (Hlt : (i < length (projectiles s))%nat)
    by (apply lookup_lt_is_Some; eauto).
  destruct (hitTarget (advance proj) s) as [[r target]|] eqn:Hh.
  - apply hitTarget_heap in Hh as (_ & Hr & _).
    repeat split; try done.
    + rewrite (playSound_only_fx damageSound). case_match; simpl;
        apply list_eq; intros j; rewrite !list_lookup_delete;
        case_match; try done; rewrite list_lookup_insert_ne; done || lia.
    + rewrite (playSound_only_fx damageSound). case_match; simpl;
        by apply same_meshes_set_health.
  - case_match; simpl; repeat split; try done.
    apply list_eq; intros j; rewrite !list_lookup_delete.
    case_match; try done; rewrite list_lookup_insert_ne; done || lia.
Qed.

(** The loop, from index [length pre - 1] down to 0, over a list that
    starts with [pre]; [s0] is the game when the pass began. *)
Lemma updateProjectiles_loop (s0 : Game) (pre : list Projectile.t) :
  forall (s : Game) (rest : list Projectile.t),
    projectiles s = pre ++ rest ->
    same_meshes (heap s0) (heap s) ->
    let s' := for_down (length pre) updateProjectiles_body s in
    projectiles s' = omap (survive s0) pre ++ rest
    /\ same_meshes (heap s0) (heap s')
    /\ ((forall proj, proj ∈ pre -> hitTarget (advance proj) s0 = None) ->
        heap s' = heap s /\ fx s' = fx s).
Proof.
  induction pre as [|proj pre IH] using rev_ind; intros s rest Hl Hm; simpl.
  { done. }
  rewrite length_app, Nat.add_1_r. simpl.
  assert (Hi : projectiles s !! length pre = Some proj)
    by (rewrite Hl, <- app_assoc; apply list_lookup_middle; done).
  destruct (updateProjectiles_body_spec _ _ _ Hi) as (Hp & Hm' & Hnohit).
  rewrite (survive_same_meshes proj s0 s Hm) in Hp.
  rewrite Hl, <- app_assoc in Hp. simpl in Hp.
  rewrite omap_app, <- app_assoc. simpl.
  assert (Hrest : (forall p, p ∈ pre ++ [proj] -> hitTarget (advance p) s0 = None) ->
            (forall p, p ∈ pre -> hitTarget (advance p) s0 = None)
            /\ hitTarget (advance proj) s = None).
  { intros Hno. split.
    - intros p Hin. apply Hno, elem_of_app. by left.
    - apply (hitTarget_same_meshes _ _ _ Hm), Hno, elem_of_app. right.
      by apply list_elem_of_singleton. }
  destruct (survive s0 proj) as [proj'|] eqn:Hs.
  - replace (length pre) with (length pre + 0)%nat in Hp at 2 by lia.
    rewrite insert_app_r in Hp. simpl in Hp.
    destruct (IH _ _ Hp (same_meshes_trans _ _ _ Hm Hm')) as (IH1 & IH2 & IH3).
    split; [done|]. split; [done|]. intros Hno.
    destruct (Hrest Hno) as [Hpre Hproj].
    destruct (IH3 Hpre), (Hnohit Hproj). split; congruence.
  - rewrite delete_middle in Hp.
    destruct (IH _ _ Hp (same_meshes_trans _ _ _ Hm Hm')) as (IH1 & IH2 & IH3).
    split; [done|]. split; [done|]. intros Hno.
    destruct (Hrest Hno) as [Hpre Hproj].
    destruct (IH3 Hpre), (Hnohit Hproj). split; congruence.
Qed.

(** A pass of [updateProjectiles] maps [survive] over the projectiles. *)
Lemma updateProjectiles_spec (s : Game) :
  isPaused s = false ->
  let s' := updateProjectiles s in
  projectiles s' = omap (survive s) (projectiles s)
  /\ same_meshes (heap s) (heap s')
  /\ ((forall proj, proj ∈ projectiles s -> hitTarget (advance proj) s = None) ->
      heap s' = heap s /\ fx s' = fx s).
Proof.
  intros Hp. unfold updateProjectiles. rewrite Hp.
  destruct (updateProjectiles_loop s (projectiles s) s [])
    as (H1 & H2 & H3); [by rewrite app_nil_r|done|].
  rewrite app_nil_r in H1. done.
Qed.

Lemma life_iter_advance (proj : Projectile.t) (k : nat) :
  Projectile.life (Nat.iter k advance proj) = Projectile.life proj + Z.of_nat k.
Proof.
  induction k as [|k IH]; simpl; [lia|]. rewrite IH. lia.
Qed.

Lemma survive_advance (s : Game) (proj proj' : Projectile.t) :
  survive s proj = Some proj' ->
  proj' = advance proj /\ hitTarget (advance proj) s = None
  /\ Projectile.life proj' <= 100.
Proof.
  unfold survive. destruct (hitTarget (advance proj) s); [done|].
  destruct (Z.gtb_spec (Projectile.life (advance proj)) 100); [done|].
  intros [= <-]. split; [done|]. split; [done|lia].
Qed.

(** The age limit, for one pass of [updateProjectiles]. *)
Lemma updateProjectiles_expiry (s : Game) :
  isPaused s = false ->
  let s' := updateProjectiles s in
  projectiles s' = omap (survive s) (projectiles s)
  /\ (forall proj, hitTarget (advance proj) s = None ->
        survive s proj =
          if Projectile.life proj + 1 >? 100 then None else Some (advance proj))
  /\ (forall proj0 k,
        Projectile.life proj0 = 0 ->
        hitTarget (advance (Nat.iter k advance proj0)) s = None ->
        ((k < 100)%nat ->
           survive s (Nat.iter k advance proj0) = Some (Nat.iter (S k) advance proj0))
        /\ (k = 100%nat -> survive s (Nat.iter k advance proj0) = None))
  /\ ((forall proj, proj ∈ projectiles s -> hitTarget (advance proj) s = None) ->
        heap s' = heap s /\ fx s' = fx s)
  /\ Forall (fun proj => Projectile.life proj <= 100) (projectiles s').
Proof.
  intros Hp s'.
  destruct (updateProjectiles_spec s Hp) as (Hl & _ & Hquiet). fold s' in Hl, Hquiet.
  assert (Hnohit : forall proj, hitTarget (advance proj) s = None ->
    survive s proj =
      if Projectile.life proj + 1 >? 100 then None else Some (advance proj)).
  { intros proj Hno. unfold survive. rewrite Hno. done. }
  split; [done|]. split; [done|]. split; [|split; [done|]].
  - intros proj0 k H0 Hno. rewrite (Hnohit _ Hno), life_iter_advance, H0.
    split; intros Hk.
    + destruct (Z.gtb_spec (0 + Z.of_nat k + 1) 100); [lia|done].
    + destruct (Z.gtb_spec (0 + Z.of_nat k + 1) 100); [done|lia].
  - rewrite Hl. apply Forall_forall. intros proj' Hin.
    apply list_elem_of_omap in Hin as (proj & _ & Hs).
    by apply survive_advance in Hs as (_ & _ & ?).
Qed.

(** ** Aiming *)

Lemma fireProjectile_spec (tower : Tower.t) (r : ref) (target : Enemy.t) (s : Game) :
  Tower.target tower = Some r ->
  isPaused s = false ->
  heap s !! r = Some target ->
  projectiles (fireProjectile tower s) =
    projectiles s ++
    [Projectile.mk (muzzle tower)
       (Vec.normalize (Vec.subtract (Enemy.position target) (muzzle tower)))
       2.2%Q (damage (Tower.data tower)) (Some r) 0 (Tower.type tower)].
Proof.
  intros Ht Hp Hr. unfold fireProjectile. rewrite Ht, Hp, Hr.
  by rewrite (shotSound_only_fx (Tower.type tower)).
Qed.

(** The direction of a projectile, when fired and over one pass. *)
Lemma projectile_keeps_direction :
  (forall (tower : Tower.t) (r : ref) (target : Enemy.t) (s : Game),
      Tower.target tower = Some r ->
      isPaused s = false ->
      heap s !! r = Some target ->
      exists proj,
        projectiles (fireProjectile tower s) = projectiles s ++ [proj]
        /\ Projectile.position proj = muzzle tower
        /\ Projectile.direction proj =
             Vec.normalize (Vec.subtract (Enemy.position target) (muzzle tower))
        /\ Projectile.target proj = Some r
        /\ Projectile.life proj = 0)
  /\ (forall (s : Game) (proj' : Projectile.t),
      isPaused s = false ->
      proj' ∈ projectiles (updateProjectiles s) ->
      exists proj,
        proj ∈ projectiles s
        /\ Projectile.direction proj' = Projectile.direction proj
        /\ Projectile.speed proj' = Projectile.speed proj
        /\ Projectile.target proj' = Projectile.target proj
        /\ Projectile.position proj' =
             Vec.add (Projectile.position proj)
               (Vec.scale (Projectile.direction proj) (Projectile.speed proj))).
Proof.
  split.
  - intros tower r target s Ht Hp Hr. eexists. split.
    + by apply fireProjectile_spec.
    + done.
  - intros s proj' Hp Hin.
    destruct (updateProjectiles_spec s Hp) as (Hl & _). rewrite Hl in Hin.
    apply list_elem_of_omap in Hin as (proj & Hin & Hs).
    apply survive_advance in Hs as (-> & _). by exists proj.
Qed.

(** ** Score *)

Lemma for_down_ind {S : Type} (P : S -> Prop) (body : nat -> S -> S) :
  (forall i s, P s -> P (body i s)) ->
  forall n s, P s -> P (for_down n body s).
Proof. intros Hb n. induction n as [|n IH]; simpl; auto. Qed.

Lemma for_up_ind {S : Type} (P : S -> Prop) (body : nat -> S -> S) :
  (forall i s, P s -> P (body i s)) ->
  forall n s, P s -> P (for_up n body s).
Proof.
  intros Hb n s. unfold for_up. generalize (seq 0 n). intros l. revert s.
  induction l as [|i l IH]; simpl; auto.
Qed.

Lemma quiet_refl (s : Game) : quiet s s.
Proof. by unfold quiet. Qed.

Lemma quiet_trans (s1 s2 s3 : Game) : quiet s1 s2 -> quiet s2 s3 -> quiet s1 s3.
Proof. unfold quiet. intros (?&?&?&?&?) (?&?&?&?&?). split_and!; try congruence. auto. Qed.

Lemma kills_refl (s : Game) : kills s s.
Proof. unfold kills. split_and!; try done; lia. Qed.

Lemma kills_trans (s1 s2 s3 : Game) : kills s1 s2 -> kills s2 s3 -> kills s1 s3.
Proof.
  unfold kills. intros (?&?&?&H12) (?&?&?&H23). split_and!; try congruence; try lia.
  intros Hok. destruct (H12 Hok) as [Hok2 ?]. destruct (H23 Hok2). split; [done|lia].
Qed.

Lemma rewards_ok_insert (h : gmap ref Enemy.t) (r : ref) (e : Enemy.t) :
  rewards_ok h -> 0 <= Enemy.reward e -> rewards_ok (<[r := e]> h).
Proof.
  intros Hh He r' e'. destruct (decide (r' = r)) as [->|Hne].
  - rewrite lookup_insert_eq. by intros [= <-].
  - rewrite lookup_insert_ne by done. apply Hh.
Qed.

Lemma reward_moveAlongPath (p : list Vector3) (e : Enemy.t) :
  Enemy.reward (moveAlongPath p e) = Enemy.reward e.
Proof. unfold moveAlongPath. repeat case_match; done. Qed.

Lemma fireEnemyProjectile_frame (enemy : Enemy.t) (s : Game) :
  let s' := fireEnemyProjectile enemy s in
  s' = s |> set_enemyProjectiles (enemyProjectiles s') |> set_fx (fx s').
Proof.
  unfold fireEnemyProjectile. repeat case_match; try by destruct s.
  rewrite (playSound_only_fx enemyShotSound). by destruct s.
Qed.

Lemma fireProjectile_frame (tower : Tower.t) (s : Game) :
  let s' := fireProjectile tower s in
  s' = s |> set_projectiles (projectiles s') |> set_fx (fx s').
Proof.
  unfold fireProjectile. repeat case_match; try by destruct s.
  rewrite (shotSound_only_fx (Tower.type tower)). by destruct s.
Qed.

Lemma updateEnemies_body_kills (currentTime : Z) (i : nat) (s : Game) :
  kills s (updateEnemies_body currentTime i s).
Proof.
  unfold updateEnemies_body, kills.
  destruct (enemies s !! i) as [r|]; [|by apply kills_refl].
  destruct (heap s !! r) as [enemy|] eqn:Hr; [|by apply kills_refl].
  repeat case_match; try rewrite fireEnemyProjectile_frame; simpl;
    split_and!; try lia; try done.
  all: intros Hok; pose proof (Hok _ _ Hr) as Hre.
  all: rewrite ?reward_moveAlongPath.
  all: split; [|lia].
  all: repeat (apply rewards_ok_insert; simpl; rewrite ?reward_moveAlongPath;
               try done).
Qed.

Lemma updateEnemies_kills (currentTime : Z) (s : Game) :
  kills s (updateEnemies currentTime s).
Proof.
  unfold updateEnemies. case_match; [apply kills_refl|].
  apply (for_down_ind (kills s)); [|apply kills_refl].
  intros i s' Hs'. eapply kills_trans; [done|apply updateEnemies_body_kills].
Qed.

Lemma playerAttack_onAnimationEnd_kills (s : Game) :
  kills s (playerAttack_onAnimationEnd s).
Proof.
  unfold playerAttack_onAnimationEnd.
  apply (for_down_ind (kills s)); [|apply kills_refl].
  intros i s' Hs'. eapply kills_trans; [done|]. clear.
  unfold playerAttack_body, kills.
  destruct (enemies s' !! i) as [r|]; [|by apply kills_refl].
  destruct (heap s' !! r) as [enemy|] eqn:Hr; [|by apply kills_refl].
  simpl. split_and!; try done; try lia.
  intros Hok. pose proof (Hok _ _ Hr). split; [|lia].
  by apply rewards_ok_insert.
Qed.

Lemma updateTowers_quiet (currentTime : Z) (s : Game) :
  quiet s (updateTowers currentTime s).
Proof.
  unfold updateTowers. case_match; [apply quiet_refl|].
  apply (for_up_ind (quiet s)); [|apply quiet_refl].
  intros k s' Hs'. eapply quiet_trans; [done|]. clear.
  unfold updateTowers_body, quiet.
  repeat case_match; try rewrite fireProjectile_frame; simpl; done.
Qed.

Lemma updateProjectiles_quiet (s : Game) : quiet s (updateProjectiles s).
Proof.
  unfold updateProjectiles. case_match; [apply quiet_refl|].
  apply (for_down_ind (quiet s)); [|apply quiet_refl].
  intros i s' Hs'. eapply quiet_trans; [done|]. clear.
  unfold updateProjectiles_body, quiet.
  destruct (projectiles s' !! i) as [proj|]; [|done].
  destruct (hitTarget _ _) as [[r target]|] eqn:Hh.
  - apply hitTarget_heap in Hh as (_ & Hr & _). simpl in Hr.
    rewrite (playSound_only_fx damageSound).
    case_match; simpl; split_and!; try done;
      intros Hok; apply rewards_ok_insert; try done; apply (Hok _ _ Hr).
  - case_match; simpl; done.
Qed.

Lemma updateEnemyProjectiles_quiet (s : Game) : quiet s (updateEnemyProjectiles s).
Proof.
  unfold updateEnemyProjectiles. case_match; [apply quiet_refl|].
  apply (for_down_ind (quiet s)); [|apply quiet_refl].
  intros i s' Hs'. eapply quiet_trans; [done|]. clear.
  unfold updateEnemyProjectiles_body, quiet.
  repeat case_match; simpl; done.
Qed.

Lemma quiet_score_inv (s s' : Game) : quiet s s' -> score_inv s -> score_inv s'.
Proof.
  unfold quiet, score_inv. intros (_&_&->&->&Hh) (?&?&?). auto.
Qed.

Lemma kills_score_inv (s s' : Game) : kills s s' -> score_inv s -> score_inv s'.
Proof.
  unfold kills, score_inv. intros (->&->&_&Hh) (?&?&?).
  split_and!; try done. by apply Hh.
Qed.

Lemma spawnEnemies_gold_score (random : Q) (s : Game) :
  let s' := spawnEnemies random s in
  gold s' = gold s /\ idle s s'.
Proof.
  unfold spawnEnemies, spawnEnemy, idle, score_inv.
  repeat case_match; simpl; split_and!; try done.
  all: intros (?&?&?); split_and!; try done.
  all: apply Forall_app; split; [done|]; apply Forall_singleton; simpl.
  all: simplify_eq; lia.
Qed.

Lemma checkWaveComplete_credit (s : Game) :
  let s' := checkWaveComplete s in
  score s' - score s = 5 * (gold s' - gold s)
  /\ (gold s' = gold s \/ gold s' = gold s + (25 + wave s * 10))
  /\ (score_inv s -> score_inv s' /\ gold s <= gold s').
Proof.
  unfold checkWaveComplete, score_inv.
  case_match; simpl; split_and!; try lia; auto.
  - intros (?&?&?). split; [done|lia].
  - intros (?&?&?). split; [done|lia].
Qed.

Lemma activatePlayerAttack_idle (s : Game) : idle s (activatePlayerAttack s).
Proof.
  unfold activatePlayerAttack, idle, score_inv.
  repeat case_match; simpl; split_and!; try done.
  intros (?&?&?). split_and!; try done.
  apply Forall_app; split; [done|]. by apply Forall_singleton.
Qed.

Lemma placeTower_idle (position : Vector3) (s : Game) :
  idle s (placeTower position s).
Proof.
  unfold placeTower.
  destruct (isPaused s); [by split|].
  destruct (gold s >=? _); [|by split].
  destruct (validPosition position s); [|by split].
  destruct (selectedTowerType s) eqn:Ht.
  1-4: unfold idle, score_inv; simpl; split; [done|];
       intros (?&?&?); split_and!; try done;
       apply Forall_app; split; [done|]; by apply Forall_singleton.
  destruct (activatePlayerAttack_idle
              (set_gold (gold s - cost (towerTypes playerAttack)) s)) as [Hs Hi].
  split; [by rewrite Hs|]. intros Hinv. by apply Hi.
Qed.

Lemma placeTowerAtCrosshair_idle (pickedPoint : option Vector3) (s : Game) :
  idle s (placeTowerAtCrosshair pickedPoint s).
Proof.
  unfold placeTowerAtCrosshair. repeat case_match; try by split.
  apply placeTower_idle.
Qed.

Lemma global_selectTowerType_idle
    (type : TowerType) (pickedPoint : option Vector3) (s : Game) :
  idle s (global_selectTowerType type pickedPoint s).
Proof.
  unfold global_selectTowerType, selectTowerType.
  repeat case_match; try by split.
  destruct (placeTowerAtCrosshair_idle pickedPoint (set_selectedTowerType type s))
    as [Hs Hi].
  split; [by rewrite Hs|]. intros Hinv. by apply Hi.
Qed.

Lemma startNextWave_idle (random : Q) (s : Game) :
  idle s (startNextWave random s).
Proof.
  unfold startNextWave, idle, score_inv.
  repeat case_match; try rewrite playRandomLore_frame; simpl; split_and!;
    try done; intros (?&?&?); split_and!; try done; lia.
Qed.

Lemma togglePause_idle (s : Game) : idle s (togglePause s).
Proof.
  unfold togglePause, idle, score_inv. repeat case_match; simpl; done.
Qed.

Lemma spawnEnemy_loaded_idle (baseHealth : Z) (baseSpeed : Q) (baseReward : Z) (s : Game) :
  0 <= baseReward ->
  idle s (spawnEnemy_loaded baseHealth baseSpeed baseReward s).
Proof.
  intros Hb. unfold spawnEnemy_loaded, idle, score_inv.
  case_match; simpl; split_and!; try done.
  intros (?&?&?). split_and!; try done.
  apply rewards_ok_insert; [done|]. simpl. lia.
Qed.

Lemma Forall_delete_pending (k : nat) (l : list Pending) :
  Forall pending_ok l -> Forall pending_ok (delete k l).
Proof.
  intros Hl. apply Forall_lookup. intros j p Hj.
  rewrite list_lookup_delete in Hj.
  case_match; eapply Forall_lookup_1; eauto.
Qed.

Lemma step_score (e : Event) (s : Game) :
  score_inv s ->
  score_inv (step e s) /\ score s <= score (step e s) /\ score_credit e s.
Proof.
  intros Hinv. unfold score_credit, step.
  destruct (reloadRequested s) eqn:Hreload.
  { rewrite orb_true_r. split; [done|]. split; [lia|].
    destruct e; try done; [lia|]. repeat case_match; done || lia. }
  rewrite orb_false_r.
  destruct e as [t1 t2 rnd|picked|type picked|rnd| |k|k].
  - unfold frame. destruct (isPaused s); [split_and!; try done; lia|].
    set (s1 := updateEnemies t1 s).
    set (s2 := updateTowers t2 s1). set (s3 := updateProjectiles s2).
    set (s4 := updateEnemyProjectiles s3). set (s5 := spawnEnemies rnd s4).
    pose proof (updateEnemies_kills t1 s) as K1. fold s1 in K1.
    pose proof (updateTowers_quiet t2 s1) as Q2. fold s2 in Q2.
    pose proof (updateProjectiles_quiet s2) as Q3. fold s3 in Q3.
    pose proof (updateEnemyProjectiles_quiet s3) as Q4. fold s4 in Q4.
    destruct (spawnEnemies_gold_score rnd s4) as (G5 & S5 & I5). fold s5 in G5, S5, I5.
    destruct (checkWaveComplete_credit s5) as (C6 & _ & I6).
    pose proof (kills_score_inv _ _ K1 Hinv) as Hinv1.
    pose proof (quiet_score_inv _ _ Q2 Hinv1) as Hinv2.
    pose proof (quiet_score_inv _ _ Q3 Hinv2) as Hinv3.
    pose proof (quiet_score_inv _ _ Q4 Hinv3) as Hinv4.
    destruct (I6 (I5 Hinv4)) as [Hinv6 G6].
    destruct K1 as (_&_&K1&G1). destruct (G1 (proj1 (proj2 Hinv))) as [_ G1'].
    destruct Q2 as (Q2g&Q2s&_), Q3 as (Q3g&Q3s&_), Q4 as (Q4g&Q4s&_).
    split_and!; try done; lia.
  - destruct (placeTowerAtCrosshair_idle picked s) as [Hs Hi].
    split_and!; auto; lia.
  - destruct (global_selectTowerType_idle type picked s) as [Hs Hi].
    split_and!; auto; lia.
  - destruct (startNextWave_idle rnd s) as [Hs Hi]. split_and!; auto; lia.
  - destruct (togglePause_idle s) as [Hs Hi]. split_and!; auto; lia.
  - destruct (pending s !! k) as [p|] eqn:Hk; [|split_and!; try done; lia].
    assert (Hp : pending_ok p)
      by (destruct Hinv as (_&_&Hpend); eapply Forall_lookup_1; eauto).
    assert (Hinv' : score_inv (set_pending (delete k (pending s)) s)).
    { destruct Hinv as (?&?&?). split_and!; try done.
      by apply Forall_delete_pending. }
    destruct p as [position type itemData|position itemData| | |bh bs br]; simpl.
    + unfold placeTower_towerLoaded. simpl. split_and!; try done; lia.
    + unfold placeTower_colonyLoaded. simpl. split_and!; try done; lia.
    + unfold activatePlayerAttack_loaded.
      destruct Hinv' as (?&?&?). split; [|simpl; split; [lia|done]].
      unfold score_inv. simpl. split_and!; try done.
      apply Forall_app; split; [done|]. by apply Forall_singleton.
    + pose proof (playerAttack_onAnimationEnd_kills
                    (set_pending (delete k (pending s)) s)) as K.
      pose proof (kills_score_inv _ _ K Hinv') as Hinv''.
      destruct K as (_&_&K&G). destruct (G (proj1 (proj2 Hinv'))) as [_ G'].
      simpl in K, G'. split_and!; try done; lia.
    + destruct (spawnEnemy_loaded_idle bh bs br
                  (set_pending (delete k (pending s)) s) Hp) as [Hs Hi].
      simpl in Hs. split_and!; auto; lia.
  - destruct Hinv as (?&?&?). split; [|simpl; split; [lia|done]].
    unfold score_inv. simpl. split_and!; try done.
    by apply Forall_delete_pending.
Qed.

Lemma initial_score_inv (sounds : Sound -> bool) : score_inv (initial sounds).
Proof. unfold score_inv. simpl. split_and!; try done. Qed.

Lemma run_snoc (es : list Event) (e : Event) (s : Game) :
  run (es ++ [e]) s = step e (run es s).
Proof. unfold run. by rewrite foldl_app. Qed.

Lemma reachable_score_inv (s : Game) : reachable s -> score_inv s.
Proof.
  intros (sounds & es & ->).
  induction es as [|e es IH] using rev_ind; [apply initial_score_inv|].
  rewrite run_snoc. by apply step_score.
Qed.

(** C10. In a reachable game no event lowers the score, and the score
    moves only with credited gold: in a frame by 15 times the rewards
    credited by [updateEnemies] plus 5 times the bonus credited by
    [checkWaveComplete], at the end of the player attack by 15 times the
    rewards credited, and not at all on any other event (placement,
    selection, next wave, pause, a finished or failed load). *)
Theorem score_never_decreases (s : Game) (e : Event) :
  reachable s ->
  score s <= score (step e s) /\ score_credit e s.
Proof.
  intros Hr. by destruct (step_score e s (reachable_score_inv s Hr)) as (_ & ? & ?).
Qed.

(** ** Damage *)

(** The fire gate of [updateTowers], for a tower that has found a target. *)
Lemma updateTowers_body_fire
    (currentTime : Z) (k : nat) (tower : Tower.t) (r : ref) (target : Enemy.t)
    (s : Game) :
  isPaused s = false ->
  towers s !! k = Some tower ->
  closestEnemy (Tower.position tower) (range (Tower.data tower)) s = Some r ->
  heap s !! r = Some target ->
  let s' := updateTowers_body currentTime k s in
  if currentTime - Tower.lastFired tower >? fireRate (Tower.data tower) then
    projectiles s' =
      projectiles s ++
      [Projectile.mk (muzzle tower)
         (Vec.normalize (Vec.subtract (Enemy.position target) (muzzle tower)))
         2.2%Q (damage (Tower.data tower)) (Some r) 0 (Tower.type tower)]
    /\ towers s' !! k =
         Some (tower |> Tower.set_target (Some r)
                     |> Tower.set_lastFired currentTime)
  else
    projectiles s' = projectiles s
    /\ towers s' !! k = Some (Tower.set_target (Some r) tower).
Proof.
  intros Hp Hk Hc Hr s'. subst s'. unfold updateTowers_body.
  rewrite Hk, Hc.
  assert (Hlt : (k < length (towers s))%nat) by (apply lookup_lt_is_Some; eauto).
  simpl. case_match.
  - split.
    + rewrite fireProjectile_frame. simpl.
      by rewrite (fireProjectile_spec _ r target).
    + simpl. rewrite list_lookup_insert_eq; [done|].
      by rewrite length_insert.
  - simpl. split; [done|]. by rewrite list_lookup_insert_eq.
Qed.

(** A hit takes the damage of the projectile off the health of its
    target and uses the projectile up. *)
Lemma updateProjectiles_body_hit
    (i : nat) (proj : Projectile.t) (r : ref) (target : Enemy.t) (s : Game) :
  projectiles s !! i = Some proj ->
  hitTarget (advance proj) s = Some (r, target) ->
  let s' := updateProjectiles_body i s in
  heap s' !! r =
    Some (Enemy.set_health (Enemy.health target - Projectile.damage proj) target)
  /\ projectiles s' = delete i (projectiles s).
Proof.
  intros Hi Hh s'.
  destruct (updateProjectiles_body_spec i proj s Hi) as (Hl & _).
  fold s' in Hl. unfold survive in Hl. rewrite Hh in Hl. split; [|done].
  subst s'. unfold updateProjectiles_body. rewrite Hi.
  change (hitTarget (advance proj) (set_projectiles _ s))
    with (hitTarget (advance proj) s).
  rewrite Hh, (playSound_only_fx damageSound).
  case_match; simpl; by rewrite lookup_insert_eq.
Qed.

(** The death check of [updateEnemies], for an enemy still on its way. *)
Lemma updateEnemies_body_alive_or_dead
    (currentTime : Z) (i : nat) (r : ref) (enemy : Enemy.t) (s : Game) :
  enemies s !! i = Some r ->
  heap s !! r = Some enemy ->
  Z.of_nat (Enemy.pathIndex enemy) < Z.of_nat (length (path s)) - 1 ->
  let s' := updateEnemies_body currentTime i s in
  (0 < Enemy.health enemy ->
     enemies s' = enemies s /\ gold s' = gold s /\ score s' = score s
     /\ Enemy.disposed <$> heap s' !! r = Some (Enemy.disposed enemy))
  /\ (Enemy.health enemy <= 0 ->
     enemies s' = delete i (enemies s)
     /\ gold s' = gold s + Enemy.reward enemy
     /\ score s' = score s + Enemy.reward enemy * 15
     /\ Enemy.disposed <$> heap s' !! r = Some true).
Proof.
  intros Hi Hr Hway s'. subst s'. unfold updateEnemies_body.
  rewrite Hi, Hr.
  destruct (Z.ltb_spec (Z.of_nat (Enemy.pathIndex enemy))
              (Z.of_nat (length (path s)) - 1)); [|lia].
  assert (Hhealth : Enemy.health (moveAlongPath (path s) enemy) = Enemy.health enemy)
    by (unfold moveAlongPath; repeat case_match; done).
  assert (Hdisp : Enemy.disposed (moveAlongPath (path s) enemy) = Enemy.disposed enemy)
    by (unfold moveAlongPath; repeat case_match; done).
  rewrite Hhealth.
  destruct (Z.leb_spec (Enemy.health enemy) 0); (split; intros Hh; [try lia|try lia]).
  - repeat case_match; simpl; rewrite ?lookup_insert_eq, ?reward_moveAlongPath; done.
  - repeat case_match; try rewrite fireEnemyProjectile_frame; simpl;
      rewrite ?lookup_insert_eq; simpl; by rewrite ?Hdisp.
Qed.

(** C2, as the code has it. A projectile of the basic tower (damage 25,
    fire rate 900) takes 25 off the health of the enemy it hits: 60
    becomes 35, 35 becomes 10, and only the third hit brings it to -15.
    The turn of [updateEnemies] for an enemy that is still on its way
    leaves an enemy of positive health in the registry and credits
    nothing, neither gold nor score; it removes and disposes of an enemy
    whose health is 0 or less and credits its reward to gold and 15 times
    its reward to score. The tower fires on the target it has found only
    when more than 900 time units have passed since it last fired. *)
Theorem basic_tower_kills_health_60_in_three_hits :
  (damage (towerTypes basic) = 25 /\ fireRate (towerTypes basic) = 900)
  /\ (forall (i : nat) (proj : Projectile.t) (r : ref) (target : Enemy.t) (s : Game),
        projectiles s !! i = Some proj ->
        Projectile.damage proj = damage (towerTypes basic) ->
        hitTarget (advance proj) s = Some (r, target) ->
        let s' := updateProjectiles_body i s in
        (Enemy.health <$> heap s' !! r = Some (Enemy.health target - 25)
         /\ projectiles s' = delete i (projectiles s))
        /\ (Enemy.health target = 60 -> Enemy.health <$> heap s' !! r = Some 35)
        /\ (Enemy.health target = 35 -> Enemy.health <$> heap s' !! r = Some 10)
        /\ (Enemy.health target = 10 -> Enemy.health <$> heap s' !! r = Some (-15)))
  /\ (forall (currentTime : Z) (i : nat) (r : ref) (enemy : Enemy.t) (s : Game),
        enemies s !! i = Some r ->
        heap s !! r = Some enemy ->
        Z.of_nat (Enemy.pathIndex enemy) < Z.of_nat (length (path s)) - 1 ->
        let s' := updateEnemies_body currentTime i s in
        (Enemy.health enemy = 35 \/ Enemy.health enemy = 10 ->
           enemies s' = enemies s /\ gold s' = gold s /\ score s' = score s
           /\ Enemy.disposed <$> heap s' !! r = Some (Enemy.disposed enemy))
        /\ (Enemy.health enemy = -15 ->
           enemies s' = delete i (enemies s)
           /\ gold s' = gold s + Enemy.reward enemy
           /\ score s' = score s + Enemy.reward enemy * 15
           /\ Enemy.disposed <$> heap s' !! r = Some true))
  /\ (forall (currentTime : Z) (k : nat) (tower : Tower.t) (r : ref)
             (target : Enemy.t) (s : Game),
        isPaused s = false ->
        towers s !! k = Some tower ->
        Tower.data tower = towerTypes basic ->
        closestEnemy (Tower.position tower) (range (Tower.data tower)) s = Some r ->
        heap s !! r = Some target ->
        let s' := updateTowers_body currentTime k s in
        (currentTime - Tower.lastFired tower <= 900 ->
           projectiles s' = projectiles s)
        /\ (900 < currentTime - Tower.lastFired tower ->
           length (projectiles s') = S (length (projectiles s))
           /\ Tower.lastFired <$> towers s' !! k = Some currentTime)).
Proof.
  split; [done|]. split; [|split].
  - intros i proj r target s Hi Hd Hh s'.
    destruct (updateProjectiles_body_hit i proj r target s Hi Hh) as [Hr Hl].
    fold s' in Hr, Hl. rewrite Hr, Hd. simpl.
    split; [done|]. split_and!; by intros ->.
  - intros currentTime i r enemy s Hi Hr Hway s'.
    destruct (updateEnemies_body_alive_or_dead currentTime i r enemy s Hi Hr Hway)
      as [Halive Hdead]. fold s' in Halive, Hdead.
    split.
    + intros Hh. apply Halive. lia.
    + intros Hh. apply Hdead. lia.
  - intros currentTime k tower r target s Hp Hk Hd Hc Hr s'.
    pose proof (updateTowers_body_fire currentTime k tower r target s Hp Hk Hc Hr)
      as Hfire. fold s' in Hfire. rewrite Hd in Hfire. simpl in Hfire.
    destruct (Z.gtb_spec (currentTime - Tower.lastFired tower) 900);
      destruct Hfire as [Hl Ht]; split; intros ?; try lia; try done.
    rewrite Hl, Ht, length_app. simpl. split; [lia|done].
Qed.

(** ** The registry of enemies *)

Lemma culls_refl (s : Game) : culls s s.
Proof. by split. Qed.

Lemma culls_trans (s1 s2 s3 : Game) : culls s1 s2 -> culls s2 s3 -> culls s1 s3.
Proof. intros [? ?] [? ?]. split; [by etrans|auto]. Qed.

Lemma bystander_refl (s : Game) : bystander s s.
Proof. split; [done|apply culls_refl]. Qed.

Lemma bystander_trans (s1 s2 s3 : Game) :
  bystander s1 s2 -> bystander s2 s3 -> bystander s1 s3.
Proof. intros [? ?] [? ?]. split; [congruence|by eapply culls_trans]. Qed.

Lemma culls_registry_ok (s s' : Game) : culls s s' -> registry_ok s -> registry_ok s'.
Proof.
  intros [Hsub Hdom] [Hnd Hres]. split.
  - by eapply sublist_NoDup.
  - intros r Hin. apply Hdom, Hres. by eapply elem_of_sublist.
Qed.

Lemma bystander_registry_ok (s s' : Game) :
  bystander s s' -> registry_ok s -> registry_ok s'.
Proof. intros [_ Hc]. by apply culls_registry_ok. Qed.

Lemma is_Some_insert_keeps (h : gmap ref Enemy.t) (r r' : ref) (e : Enemy.t) :
  is_Some (h !! r') -> is_Some (<[r := e]> h !! r').
Proof.
  intros Hr. destruct (decide (r' = r)) as [->|Hne].
  - by rewrite lookup_insert_eq.
  - by rewrite lookup_insert_ne.
Qed.

Lemma updateEnemies_body_bystander (currentTime : Z) (i : nat) (s : Game) :
  bystander s (updateEnemies_body currentTime i s).
Proof.
  unfold updateEnemies_body, bystander, culls.
  repeat case_match; try rewrite fireEnemyProjectile_frame; simpl;
    split_and!; try done; try apply sublist_delete.
  all: intros r' Hr'; by repeat apply is_Some_insert_keeps.
Qed.

Lemma updateEnemies_bystander (currentTime : Z) (s : Game) :
  bystander s (updateEnemies currentTime s).
Proof.
  unfold updateEnemies. case_match; [apply bystander_refl|].
  apply (for_down_ind (bystander s)); [|apply bystander_refl].
  intros i s' Hs'. eapply bystander_trans; [done|apply updateEnemies_body_bystander].
Qed.

Lemma playerAttack_onAnimationEnd_bystander (s : Game) :
  bystander s (playerAttack_onAnimationEnd s).
Proof.
  unfold playerAttack_onAnimationEnd.
  apply (for_down_ind (bystander s)); [|apply bystander_refl].
  intros i s' Hs'. eapply bystander_trans; [done|]. clear.
  unfold playerAttack_body, bystander, culls.
  repeat case_match; simpl; split_and!; try done; try apply sublist_delete.
  intros r' Hr'; by apply is_Some_insert_keeps.
Qed.

Lemma updateEnemyProjectiles_bystander (s : Game) :
  bystander s (updateEnemyProjectiles s).
Proof.
  unfold updateEnemyProjectiles. case_match; [apply bystander_refl|].
  apply (for_down_ind (bystander s)); [|apply bystander_refl].
  intros i s' Hs'. eapply bystander_trans; [done|]. clear.
  unfold updateEnemyProjectiles_body, bystander, culls.
  repeat case_match; simpl; done.
Qed.

Lemma spawnEnemies_bystander (random : Q) (s : Game) :
  bystander s (spawnEnemies random s).
Proof.
  unfold spawnEnemies, spawnEnemy, bystander, culls. repeat case_match; simpl; done.
Qed.

Lemma checkWaveComplete_bystander (s : Game) : bystander s (checkWaveComplete s).
Proof. unfold checkWaveComplete, bystander, culls. case_match; simpl; done. Qed.

Lemma placeTowerAtCrosshair_bystander (pickedPoint : option Vector3) (s : Game) :
  bystander s (placeTowerAtCrosshair pickedPoint s).
Proof.
  unfold placeTowerAtCrosshair, placeTower, activatePlayerAttack, bystander, culls.
  repeat case_match; simpl; done.
Qed.

Lemma global_selectTowerType_bystander
    (type : TowerType) (pickedPoint : option Vector3) (s : Game) :
  bystander s (global_selectTowerType type pickedPoint s).
Proof.
  unfold global_selectTowerType, selectTowerType.
  repeat case_match; try apply bystander_refl; try done.
  eapply bystander_trans; [|apply placeTowerAtCrosshair_bystander]. done.
Qed.

Lemma startNextWave_bystander (random : Q) (s : Game) :
  bystander s (startNextWave random s).
Proof.
  unfold startNextWave, bystander, culls.
  repeat case_match; try rewrite playRandomLore_frame; simpl; done.
Qed.

Lemma togglePause_bystander (s : Game) : bystander s (togglePause s).
Proof. unfold togglePause, bystander, culls. repeat case_match; simpl; done. Qed.

Lemma updateProjectiles_enemies (s : Game) :
  enemies (updateProjectiles s) = enemies s.
Proof.
  unfold updateProjectiles. case_match; [done|].
  apply (for_down_ind (fun s' => enemies s' = enemies s)); [|done].
  intros i s' <-. unfold updateProjectiles_body.
  repeat case_match; try rewrite (playSound_only_fx damageSound); simpl; done.
Qed.

Lemma updateProjectiles_culls (s : Game) : culls s (updateProjectiles s).
Proof.
  split; [by rewrite updateProjectiles_enemies|].
  intros r Hr. destruct (isPaused s) eqn:Hp.
  - unfold updateProjectiles. by rewrite Hp.
  - destruct (updateProjectiles_spec s Hp) as (_ & Hm & _).
    specialize (Hm r). destruct Hr as [e Hr]. rewrite Hr in Hm.
    destruct (heap (updateProjectiles s) !! r); [done|discriminate Hm].
Qed.

(** A spawned enemy gets a reference that no enemy object has yet. *)
Lemma spawnEnemy_loaded_registry
    (baseHealth : Z) (baseSpeed : Q) (baseReward : Z) (s : Game) :
  let s' := spawnEnemy_loaded baseHealth baseSpeed baseReward s in
  projectiles s' = projectiles s /\ (registry_ok s -> registry_ok s').
Proof.
  unfold spawnEnemy_loaded. case_match; [done|]. simpl. split; [done|].
  intros [Hnd Hres].
  assert (Hfresh : heap s !! fresh (dom (heap s)) = None)
    by apply not_elem_of_dom, is_fresh.
  split; simpl.
  - apply NoDup_app. split_and!; [done| |apply NoDup_singleton].
    intros r Hin ->%list_elem_of_singleton.
    destruct (Hres _ Hin) as [e He]. congruence.
  - intros r [Hin| ->%list_elem_of_singleton]%elem_of_app.
    + by apply is_Some_insert_keeps, Hres.
    + by rewrite lookup_insert_eq.
Qed.

(** *** What [updateTowers] adds to the projectiles *)

Lemma fireProjectile_aimed (tower : Tower.t) (s : Game) :
  exists fired,
    projectiles (fireProjectile tower s) = projectiles s ++ fired
    /\ Forall (aimed s) fired.
Proof.
  unfold fireProjectile.
  destruct (Tower.target tower) as [r|] eqn:Ht; [|by exists []; rewrite app_nil_r].
  destruct (isPaused s); [by exists []; rewrite app_nil_r|].
  destruct (heap s !! r) as [target|] eqn:Hr; [|by exists []; rewrite app_nil_r].
  rewrite (shotSound_only_fx (Tower.type tower)). simpl.
  eexists [_]. split; [done|]. apply Forall_singleton.
  by exists tower, r, target.
Qed.

Lemma updateTowers_body_fires (currentTime : Z) (k : nat) (s : Game) :
  let s' := updateTowers_body currentTime k s in
  heap s' = heap s /\ enemies s' = enemies s
  /\ exists fired, projectiles s' = projectiles s ++ fired /\ Forall (aimed s) fired.
Proof.
  unfold updateTowers_body.
  destruct (towers s !! k) as [tower|]; [|by split_and!; [..|exists []; rewrite app_nil_r]].
  set (tower' := Tower.set_target _ tower). set (s1 := set_towers _ s).
  destruct (closestEnemy _ _ s);
    [|by split_and!; [..|exists []; rewrite app_nil_r]].
  case_match; [|by split_and!; [..|exists []; rewrite app_nil_r]].
  rewrite fireProjectile_frame. simpl. split_and!; try done.
  apply (fireProjectile_aimed tower' s1).
Qed.

Lemma updateTowers_fires (currentTime : Z) (s : Game) :
  let s' := updateTowers currentTime s in
  heap s' = heap s /\ enemies s' = enemies s
  /\ exists fired, projectiles s' = projectiles s ++ fired /\ Forall (aimed s) fired.
Proof.
  unfold updateTowers.
  case_match; [by split_and!; [..|exists []; rewrite app_nil_r]|].
  apply (for_up_ind (fun s' => heap s' = heap s /\ enemies s' = enemies s
    /\ exists fired, projectiles s' = projectiles s ++ fired /\ Forall (aimed s) fired));
    [|by split_and!; [..|exists []; rewrite app_nil_r]].
  intros k s' (Hh & He & fired & Hl & Hf).
  destruct (updateTowers_body_fires currentTime k s') as (Hh' & He' & fired' & Hl' & Hf').
  split_and!; try congruence.
  exists (fired ++ fired'). rewrite Hl', Hl, app_assoc. split; [done|].
  apply Forall_app. split; [done|].
  eapply Forall_impl; [done|]. intros proj (tower & r & target & Hr & ?).
  exists tower, r, target. by rewrite <- Hh.
Qed.

Lemma updateEnemies_isPaused (currentTime : Z) (s : Game) :
  isPaused (updateEnemies currentTime s) = isPaused s.
Proof.
  unfold updateEnemies. destruct (isPaused s) eqn:Hp; [done|]. rewrite <- Hp.
  apply (for_down_ind (fun s' => isPaused s' = isPaused s)); [|done].
  intros i s' <-. unfold updateEnemies_body.
  repeat case_match; try rewrite fireEnemyProjectile_frame; simpl; done.
Qed.

Lemma updateTowers_isPaused (currentTime : Z) (s : Game) :
  isPaused (updateTowers currentTime s) = isPaused s.
Proof.
  unfold updateTowers. destruct (isPaused s) eqn:Hp; [done|]. rewrite <- Hp.
  apply (for_up_ind (fun s' => isPaused s' = isPaused s)); [|done].
  intros i s' <-. unfold updateTowers_body.
  repeat case_match; try rewrite fireProjectile_frame; simpl; done.
Qed.

(** What one event makes of the projectiles: each one found afterwards
    was there before, or is a projectile from before or one fired in this
    frame, moved on by a pass of [updateProjectiles]. *)
Lemma step_projectiles (e : Event) (s : Game) (proj' : Projectile.t) :
  proj' ∈ projectiles (step e s) ->
  proj' ∈ projectiles s
  \/ exists proj s1 s2,
       (proj ∈ projectiles s \/ aimed s1 proj) /\ survive s2 proj = Some proj'.
Proof.
  unfold step. destruct (reloadRequested s); [by left|].
  destruct e as [t1 t2 rnd|picked|type picked|rnd| |k|k].
  - unfold frame. destruct (isPaused s) eqn:Hp; [by left|].
    set (s1 := updateEnemies t1 s).
    set (s2 := updateTowers t2 s1). set (s3 := updateProjectiles s2).
    set (s4 := updateEnemyProjectiles s3). set (s5 := spawnEnemies rnd s4).
    destruct (updateEnemies_bystander t1 s) as [P1 _]. fold s1 in P1.
    destruct (updateTowers_fires t2 s1) as (_ & _ & fired & P2 & Hf). fold s2 in P2.
    destruct (updateEnemyProjectiles_bystander s3) as [P4 _]. fold s4 in P4.
    destruct (spawnEnemies_bystander rnd s4) as [P5 _]. fold s5 in P5.
    destruct (checkWaveComplete_bystander s5) as [P6 _].
    assert (Hp2 : isPaused s2 = false)
      by (subst s2 s1; by rewrite updateTowers_isPaused, updateEnemies_isPaused).
    destruct (updateProjectiles_spec s2 Hp2) as (P3 & _). fold s3 in P3.
    rewrite P6, P5, P4, P3, P2, P1. intros Hin. right.
    apply list_elem_of_omap in Hin as (proj & Hin & Hs).
    exists proj, s1, s2. split; [|done].
    apply elem_of_app in Hin as [Hin|Hin]; [by left|right].
    eapply Forall_forall in Hf; eauto.
  - destruct (placeTowerAtCrosshair_bystander picked s) as [-> _]. by left.
  - destruct (global_selectTowerType_bystander type picked s) as [-> _]. by left.
  - destruct (startNextWave_bystander rnd s) as [-> _]. by left.
  - destruct (togglePause_bystander s) as [-> _]. by left.
  - destruct (pending s !! k) as [p|]; [|by left].
    destruct p as [position type itemData|position itemData| | |bh bs br]; simpl;
      try (by left).
    + destruct (playerAttack_onAnimationEnd_bystander
                  (set_pending (delete k (pending s)) s)) as [-> _]. by left.
    + destruct (spawnEnemy_loaded_registry bh bs br
                  (set_pending (delete k (pending s)) s)) as [-> _]. by left.
  - by left.
Qed.

Lemma step_registry_ok (e : Event) (s : Game) : registry_ok s -> registry_ok (step e s).
Proof.
  intros Hok. unfold step. destruct (reloadRequested s); [done|].
  destruct e as [t1 t2 rnd|picked|type picked|rnd| |k|k].
  - unfold frame. destruct (isPaused s) eqn:Hp; [done|].
    eapply bystander_registry_ok; [apply checkWaveComplete_bystander|].
    eapply bystander_registry_ok; [apply spawnEnemies_bystander|].
    eapply bystander_registry_ok; [apply updateEnemyProjectiles_bystander|].
    eapply culls_registry_ok; [apply updateProjectiles_culls|].
    eapply culls_registry_ok.
    { destruct (updateTowers_fires t2 (updateEnemies t1 s)) as (Hh & He & _).
      split; [by rewrite He|]. intros r. by rewrite Hh. }
    eapply bystander_registry_ok; [apply updateEnemies_bystander|done].
  - eapply bystander_registry_ok; [apply placeTowerAtCrosshair_bystander|done].
  - eapply bystander_registry_ok; [apply global_selectTowerType_bystander|done].
  - eapply bystander_registry_ok; [apply startNextWave_bystander|done].
  - eapply bystander_registry_ok; [apply togglePause_bystander|done].
  - destruct (pending s !! k) as [p|]; [|done].
    destruct p as [position type itemData|position itemData| | |bh bs br]; simpl;
      try done.
    + eapply bystander_registry_ok;
        [apply playerAttack_onAnimationEnd_bystander|done].
    + by apply spawnEnemy_loaded_registry.
  - done.
Qed.

Lemma reachable_registry_ok (s : Game) : reachable s -> registry_ok s.
Proof.
  intros (sounds & es & ->).
  induction es as [|e es IH] using rev_ind.
  - split; [apply NoDup_nil_2|]. intros r Hin. by apply elem_of_nil in Hin.
  - rewrite run_snoc. by apply step_registry_ok.
Qed.

Lemma reachable_projectile_age (s : Game) :
  reachable s -> Forall (fun proj => Projectile.life proj <= 100) (projectiles s).
Proof.
  intros (sounds & es & ->).
  induction es as [|e es IH] using rev_ind; [by apply Forall_nil|].
  rewrite run_snoc. apply Forall_forall. intros proj' Hin.
  apply step_projectiles in Hin as [Hin|(proj & s1 & s2 & _ & Hs)].
  - eapply Forall_forall in IH; eauto.
  - by apply survive_advance in Hs as (_ & _ & ?).
Qed.

(** *** A whole pass of [updateEnemies] *)

Lemma health_moveAlongPath (p : list Vector3) (e : Enemy.t) :
  Enemy.health (moveAlongPath p e) = Enemy.health e.
Proof. unfold moveAlongPath. repeat case_match; done. Qed.

(** One turn of the loop, for the enemy [r] found at index [i]: it takes
    a life when [r] is at the end, credits the reward of [r] when it is
    dead, drops [r] from the list in both cases, and touches no other
    enemy object. *)
Lemma updateEnemies_body_turn (currentTime : Z) (i : nat) (r : ref) (s : Game) :
  enemies s !! i = Some r ->
  let s' := updateEnemies_body currentTime i s in
  path s' = path s
  /\ (forall r', r' <> r -> heap s' !! r' = heap s !! r')
  /\ enemies s' = (if at_end s r || dies s r then delete i (enemies s) else enemies s)
  /\ lives s' = lives s - (if at_end s r then 1 else 0)
  /\ gold s' = gold s + bounty s r.
Proof.
  intros Hi s'. subst s'. unfold updateEnemies_body, at_end, dies, bounty, dies.
  rewrite Hi.
  destruct (heap s !! r) as [enemy|] eqn:Hr; [|split_and!; try done; lia].
  destruct (Z.ltb_spec (Z.of_nat (Enemy.pathIndex enemy))
              (Z.of_nat (length (path s)) - 1)); simpl.
  - rewrite health_moveAlongPath.
    destruct (Z.leb_spec (Enemy.health enemy) 0); simpl.
    + repeat case_match; simpl; rewrite ?reward_moveAlongPath;
        split_and!; try done; try lia.
      all: intros r' Hne; by rewrite !lookup_insert_ne.
    + repeat case_match; try rewrite fireEnemyProjectile_frame; simpl;
        split_and!; try done; try lia.
      all: intros r' Hne; by rewrite !lookup_insert_ne.
  - repeat case_match; simpl; split_and!; try done; try lia.
    all: intros r' Hne; by rewrite !lookup_insert_ne.
Qed.

Lemma sum_app (l1 l2 : list Z) : sum (l1 ++ l2) = sum l1 + sum l2.
Proof. induction l1 as [|n l1 IH]; simpl; lia. Qed.

Lemma fate_ext (s s0 : Game) (r : ref) :
  path s = path s0 -> heap s !! r = heap s0 !! r ->
  at_end s r = at_end s0 r /\ dies s r = dies s0 r /\ bounty s r = bounty s0 r.
Proof. unfold bounty, at_end, dies. by intros -> ->. Qed.

(** The loop, from index [length pre - 1] down to 0, over a list that
    starts with [pre]; [s0] is the game when the pass began. *)
Lemma updateEnemies_loop (currentTime : Z) (s0 : Game) (pre : list ref) :
  forall (s : Game) (rest : list ref),
    enemies s = pre ++ rest ->
    NoDup pre ->
    path s = path s0 ->
    (forall r, r ∈ pre -> heap s !! r = heap s0 !! r) ->
    let s' := for_down (length pre) (updateEnemies_body currentTime) s in
    enemies s' = List.filter (fun r => negb (at_end s0 r || dies s0 r)) pre ++ rest
    /\ lives s' = lives s - Z.of_nat (length (List.filter (at_end s0) pre))
    /\ gold s' = gold s + sum (map (bounty s0) pre).
Proof.
  induction pre as [|r pre IH] using rev_ind; intros s rest Hl Hnd Hpath Hheap; simpl.
  { split_and!; [done|lia|lia]. }
  rewrite length_app, Nat.add_1_r. simpl.
  apply NoDup_app in Hnd as (Hnd & Hnotin & _).
  assert (Hi : enemies s !! length pre = Some r)
    by (rewrite Hl, <- app_assoc; apply list_lookup_middle; done).
  destruct (updateEnemies_body_turn currentTime _ _ _ Hi)
    as (Hpath' & Hother & He & Hlives & Hgold).
  destruct (fate_ext s s0 r Hpath) as (Hend & Hdies & Hbounty).
  { apply Hheap, elem_of_app. right. by apply list_elem_of_singleton. }
  rewrite Hend, Hdies in He. rewrite Hend in Hlives. rewrite Hbounty in Hgold.
  rewrite Hl, <- app_assoc in He. simpl in He. rewrite delete_middle in He.
  assert (Hheap' : forall r', r' ∈ pre ->
            heap (updateEnemies_body currentTime (length pre) s) !! r' = heap s0 !! r').
  { intros r' Hin. rewrite Hother.
    - apply Hheap, elem_of_app. by left.
    - intros ->. apply (Hnotin r Hin). by apply list_elem_of_singleton. }
  rewrite !List.filter_app, map_app, sum_app, length_app, <- !app_assoc. simpl.
  destruct (at_end s0 r) eqn:Eend; simpl in *.
  - destruct (IH _ _ He Hnd (eq_trans Hpath' Hpath) Hheap') as (IH1 & IH2 & IH3).
    split_and!; [done|lia|lia].
  - destruct (dies s0 r) eqn:Edies; simpl in *.
    + destruct (IH _ _ He Hnd (eq_trans Hpath' Hpath) Hheap') as (IH1 & IH2 & IH3).
      split_and!; [done|lia|lia].
    + destruct (IH _ _ He Hnd (eq_trans Hpath' Hpath) Hheap') as (IH1 & IH2 & IH3).
      split_and!; [done|lia|lia].
Qed.

Lemma updateEnemies_pass (currentTime : Z) (s : Game) :
  reachable s ->
  isPaused s = false ->
  let s' := updateEnemies currentTime s in
  enemies s' = List.filter (fun r => negb (at_end s r || dies s r)) (enemies s)
  /\ lives s' = lives s - Z.of_nat (length (List.filter (at_end s) (enemies s)))
  /\ gold s' = gold s + sum (map (bounty s) (enemies s)).
Proof.
  intros Hr Hp. unfold updateEnemies. rewrite Hp.
  destruct (reachable_registry_ok s Hr) as [Hnd _].
  destruct (updateEnemies_loop currentTime s (enemies s) s [])
    as (H1 & H2 & H3); try done; [by rewrite app_nil_r|].
  rewrite app_nil_r in H1. done.
Qed.

(** ** The claims about enemies at the end and projectiles, in full *)

(** The waypoint counter after a step along the path. *)
Lemma pathIndex_moveAlongPath (p : list Vector3) (e : Enemy.t) :
  Enemy.pathIndex (moveAlongPath p e) =
    if Number.leb 1 (Number.add (Enemy.pathProgress e) (Enemy.speed e))
    then S (Enemy.pathIndex e) else Enemy.pathIndex e.
Proof. unfold moveAlongPath. simpl. repeat case_match; done. Qed.

(** The turn of [updateEnemies] for an enemy that is not yet at the last
    waypoint when the turn begins: no life is taken, also when the step
    of this turn brings the enemy there. *)
Lemma updateEnemies_body_on_the_way
    (currentTime : Z) (i : nat) (r : ref) (enemy : Enemy.t) (s : Game) :
  enemies s !! i = Some r ->
  heap s !! r = Some enemy ->
  Z.of_nat (Enemy.pathIndex enemy) < Z.of_nat (length (path s)) - 1 ->
  let s' := updateEnemies_body currentTime i s in
  let moved := moveAlongPath (path s) enemy in
  lives s' = lives s
  /\ (Enemy.health enemy <= 0 ->
        heap s' !! r = Some (Enemy.set_disposed true moved))
  /\ (0 < Enemy.health enemy ->
        at_end s' r
        = negb (Z.of_nat (Enemy.pathIndex moved) <? Z.of_nat (length (path s)) - 1)).
Proof.
  intros Hi Hr Hway s' moved. subst s' moved. unfold updateEnemies_body.
  rewrite Hi, Hr.
  destruct (Z.ltb_spec (Z.of_nat (Enemy.pathIndex enemy))
              (Z.of_nat (length (path s)) - 1)); [|lia].
  rewrite (health_moveAlongPath (path s) enemy).
  destruct (Z.leb_spec (Enemy.health enemy) 0).
  - split_and!; [| |lia].
    + repeat case_match; done.
    + intros _. repeat case_match; simpl; by rewrite lookup_insert_eq.
  - split_and!; [|lia|].
    + repeat case_match; try rewrite fireEnemyProjectile_frame; done.
    + intros _. unfold at_end.
      repeat case_match; try rewrite fireEnemyProjectile_frame in *; simpl in *;
        rewrite ?lookup_insert_eq in *; simplify_eq; done.
Qed.

(** One turn of the loop of the player attack: the enemy is removed and
    credited wherever it stands on the path, and no life is taken. *)
Lemma playerAttack_body_turn (i : nat) (r : ref) (enemy : Enemy.t) (s : Game) :
  enemies s !! i = Some r ->
  heap s !! r = Some enemy ->
  let s' := playerAttack_body i s in
  lives s' = lives s
  /\ enemies s' = delete i (enemies s)
  /\ heap s' !! r = Some (Enemy.set_disposed true enemy)
  /\ gold s' = gold s + Enemy.reward enemy
  /\ score s' = score s + Enemy.reward enemy * 15.
Proof.
  intros Hi Hr s'. subst s'. unfold playerAttack_body. rewrite Hi, Hr.
  simpl. by rewrite lookup_insert_eq.
Qed.

(** C8, as the code has it. An enemy is counted as having reached the
    end by the turn of [updateEnemies] that finds it at the last waypoint
    when the turn begins, which is the pass after the one that moved it
    there. That turn takes exactly one life, disposes of the enemy and
    removes it from [enemies], whatever its health, and credits neither
    gold nor score. So a pass of [updateEnemies] over a reachable game
    takes one life for each enemy that is at the last waypoint when the
    pass begins, no such enemy is in the registry afterwards, and the gold
    credited by the pass is the reward of the enemies that died on their
    way, nothing for those at the end.

    The turn that finds the enemy before the last waypoint takes no life,
    also when its step raises the waypoint counter to the last one: an
    enemy whose health is 0 or less is then removed and disposed of with
    its reward credited to gold and 15 times its reward to score; an enemy
    of positive health stays in the registry, nothing is credited, and it
    stands at the last waypoint afterwards exactly when its counter has
    come there. And a turn of the loop of the player attack removes
    and credits the enemy wherever it stands and takes no life. *)
Theorem enemy_at_end_costs_one_life :
  (forall (currentTime : Z) (i : nat) (r : ref) (enemy : Enemy.t) (s : Game),
      enemies s !! i = Some r ->
      heap s !! r = Some enemy ->
      Z.of_nat (length (path s)) - 1 <= Z.of_nat (Enemy.pathIndex enemy) ->
      let s' := updateEnemies_body currentTime i s in
      lives s' = lives s - 1
      /\ enemies s' = delete i (enemies s)
      /\ heap s' !! r = Some (Enemy.set_disposed true enemy)
      /\ gold s' = gold s
      /\ score s' = score s)
  /\ (forall (currentTime : Z) (s : Game),
      reachable s ->
      isPaused s = false ->
      let s' := updateEnemies currentTime s in
      lives s' = lives s - Z.of_nat (length (List.filter (at_end s) (enemies s)))
      /\ (forall r, r ∈ enemies s -> at_end s r = true ->
            (r ∉ enemies s') /\ bounty s r = 0)
      /\ gold s' = gold s + sum (map (bounty s) (enemies s)))
  /\ (forall (currentTime : Z) (i : nat) (r : ref) (enemy : Enemy.t) (s : Game),
      enemies s !! i = Some r ->
      heap s !! r = Some enemy ->
      Z.of_nat (Enemy.pathIndex enemy) < Z.of_nat (length (path s)) - 1 ->
      let s' := updateEnemies_body currentTime i s in
      let moved := moveAlongPath (path s) enemy in
      lives s' = lives s
      /\ Enemy.pathIndex moved =
           (if Number.leb 1 (Number.add (Enemy.pathProgress enemy) (Enemy.speed enemy))
            then S (Enemy.pathIndex enemy) else Enemy.pathIndex enemy)
      /\ (Enemy.health enemy <= 0 ->
            enemies s' = delete i (enemies s)
            /\ heap s' !! r = Some (Enemy.set_disposed true moved)
            /\ gold s' = gold s + Enemy.reward enemy
            /\ score s' = score s + Enemy.reward enemy * 15)
      /\ (0 < Enemy.health enemy ->
            enemies s' = enemies s /\ gold s' = gold s /\ score s' = score s
            /\ at_end s' r
               = negb (Z.of_nat (Enemy.pathIndex moved)
                       <? Z.of_nat (length (path s)) - 1)))
  /\ (forall (i : nat) (r : ref) (enemy : Enemy.t) (s : Game),
      enemies s !! i = Some r ->
      heap s !! r = Some enemy ->
      let s' := playerAttack_body i s in
      lives s' = lives s
      /\ enemies s' = delete i (enemies s)
      /\ heap s' !! r = Some (Enemy.set_disposed true enemy)
      /\ gold s' = gold s + Enemy.reward enemy
      /\ score s' = score s + Enemy.reward enemy * 15).
Proof.
  split; [apply updateEnemies_body_at_end|]. split; [|split].
  - intros currentTime s Hr Hp s'.
    destruct (updateEnemies_pass currentTime s Hr Hp) as (He & Hl & Hg).
    fold s' in He, Hl, Hg. split_and!; try done.
    intros r Hin Hend. split.
    + rewrite He. intros Hin'%list_elem_of_In%List.filter_In.
      destruct Hin' as [_ Hkeep]. by rewrite Hend in Hkeep.
    + unfold bounty, dies. unfold at_end in Hend.
      destruct (heap s !! r) as [enemy|]; [|done].
      destruct (Z.of_nat (Enemy.pathIndex enemy) <? Z.of_nat (length (path s)) - 1);
        done.
  - intros currentTime i r enemy s Hi Hr Hway s' moved.
    destruct (updateEnemies_body_on_the_way currentTime i r enemy s Hi Hr Hway)
      as (Hl & Hgone & Hstays).
    destruct (updateEnemies_body_alive_or_dead currentTime i r enemy s Hi Hr Hway)
      as (Halive & Hdead).
    fold s' in Hl, Hgone, Hstays, Halive, Hdead. fold moved in Hgone, Hstays.
    split_and!.
    + exact Hl.
    + apply pathIndex_moveAlongPath.
    + intros Hh. destruct (Hdead Hh) as (He & Hg & Hs & _).
      split_and!; [exact He|exact (Hgone Hh)|exact Hg|exact Hs].
    + intros Hh. destruct (Halive Hh) as (He & Hg & Hs & _).
      split_and!; [exact He|exact Hg|exact Hs|exact (Hstays Hh)].
  - apply playerAttack_body_turn.
Qed.

(** C7. A pass of [updateProjectiles] advances every projectile and
    then keeps or drops it ([survive]). A projectile that does not pass
    the hit test is kept while its age counter, once raised, is at most
    100 and is dropped when it exceeds 100: fired with age 0 it is kept
    on its first 100 passes and dropped on pass 101. When no projectile
    hits during the pass, no enemy is changed and nothing is notified;
    and the turn of the loop that keeps or drops a projectile that does
    not hit changes no enemy and notifies nothing, whatever the other
    projectiles do. After a pass no projectile is older than 100, and no
    projectile of a reachable game is. *)
Theorem projectile_expires_after_100_ticks :
  (forall s : Game,
      isPaused s = false ->
      let s' := updateProjectiles s in
      projectiles s' = omap (survive s) (projectiles s)
      /\ (forall proj, hitTarget (advance proj) s = None ->
            survive s proj =
              if Projectile.life proj + 1 >? 100 then None else Some (advance proj))
      /\ (forall proj0 k,
            Projectile.life proj0 = 0 ->
            hitTarget (advance (Nat.iter k advance proj0)) s = None ->
            ((k < 100)%nat ->
               survive s (Nat.iter k advance proj0)
               = Some (Nat.iter (S k) advance proj0))
            /\ (k = 100%nat -> survive s (Nat.iter k advance proj0) = None))
      /\ ((forall proj, proj ∈ projectiles s -> hitTarget (advance proj) s = None) ->
            heap s' = heap s /\ fx s' = fx s)
      /\ Forall (fun proj => Projectile.life proj <= 100) (projectiles s'))
  /\ (forall (i : nat) (proj : Projectile.t) (s : Game),
      projectiles s !! i = Some proj ->
      hitTarget (advance proj) s = None ->
      let s' := updateProjectiles_body i s in
      projectiles s' =
        (if Projectile.life proj + 1 >? 100 then delete i (projectiles s)
         else <[i := advance proj]> (projectiles s))
      /\ heap s' = heap s /\ fx s' = fx s)
  /\ (forall s : Game,
      reachable s ->
      Forall (fun proj => Projectile.life proj <= 100) (projectiles s)).
Proof.
  split_and!; [apply updateProjectiles_expiry| |apply reachable_projectile_age].
  intros i proj s Hi Hno s'.
  destruct (updateProjectiles_body_spec i proj s Hi) as (Hl & _ & Hquiet).
  fold s' in Hl, Hquiet. split; [|by apply Hquiet].
  rewrite Hl. unfold survive. rewrite Hno. simpl.
  by destruct (Projectile.life proj + 1 >? 100).
Qed.

(** C6. [fireProjectile] gives the new projectile the normalized vector
    from its firing position (the muzzle) to the position its target has
    at that moment. Every projectile found after a pass of
    [updateProjectiles] is a projectile from before the pass moved by its
    own direction scaled by its speed, with the same direction, speed and
    target: wherever the target has gone, the direction is not computed
    again. And no event does anything else to a projectile: one found
    after an event was there before the event, or is one from before, or
    one aimed in this very frame, moved in that way. *)
Theorem projectile_direction_fixed_at_fire_time :
  (forall (tower : Tower.t) (r : ref) (target : Enemy.t) (s : Game),
      Tower.target tower = Some r ->
      isPaused s = false ->
      heap s !! r = Some target ->
      exists proj,
        projectiles (fireProjectile tower s) = projectiles s ++ [proj]
        /\ Projectile.position proj = muzzle tower
        /\ Projectile.direction proj =
             Vec.normalize (Vec.subtract (Enemy.position target) (muzzle tower))
        /\ Projectile.target proj = Some r
        /\ Projectile.life proj = 0)
  /\ (forall (s : Game) (proj' : Projectile.t),
      isPaused s = false ->
      proj' ∈ projectiles (updateProjectiles s) ->
      exists proj,
        proj ∈ projectiles s
        /\ Projectile.direction proj' = Projectile.direction proj
        /\ Projectile.speed proj' = Projectile.speed proj
        /\ Projectile.target proj' = Projectile.target proj
        /\ Projectile.position proj' =
             Vec.add (Projectile.position proj)
               (Vec.scale (Projectile.direction proj) (Projectile.speed proj)))
  /\ (forall (e : Event) (s : Game) (proj' : Projectile.t),
      proj' ∈ projectiles (step e s) ->
      proj' ∈ projectiles s
      \/ exists proj,
           (proj ∈ projectiles s \/ exists s1, aimed s1 proj)
           /\ Projectile.direction proj' = Projectile.direction proj
           /\ Projectile.speed proj' = Projectile.speed proj
           /\ Projectile.target proj' = Projectile.target proj
           /\ Projectile.position proj' =
                Vec.add (Projectile.position proj)
                  (Vec.scale (Projectile.direction proj) (Projectile.speed proj))).
Proof.
  destruct projectile_keeps_direction as [Hfire Hpass].
  split_and!; [done|done|].
  intros e s proj' Hin.
  apply step_projectiles in Hin as [Hin|(proj & s1 & s2 & Hfrom & Hs)]; [by left|].
  right. exists proj. apply survive_advance in Hs as (-> & _).
  split; [|done]. destruct Hfrom as [?|?]; [by left|right; by exists s1].
Qed.

End Properties.

(** * The properties on the concrete games *)

#[local] Existing Instance sqrt_fixed.

Lemma wave_start_and_completion_witness :
  enemiesInWave (startNextWave 0 new_game) = 5
  /\ gold (checkWaveComplete wave1_cleared) = gold wave1_cleared + 35.
Proof.
  assert (Hp : isPaused new_game = false) by by vm_compute.
  assert (Hg : gameStarted wave1_cleared = true) by by vm_compute.
  assert (Hn : enemiesInWave wave1_cleared <= enemiesSpawned wave1_cleared)
    by by vm_compute.
  assert (He : length (enemies wave1_cleared) = 0%nat) by by vm_compute.
  destruct (wave_start_and_completion 0 new_game wave1_cleared Hp Hg Hn He)
    as ((_ & _ & _ & H5) & (_ & _ & H35)).
  split; [apply H5|apply H35]; by vm_compute.
Defined.

(** C1 fails as stated: in wave 1, with one of five enemies spawned and
    the game not paused, [startNextWave] is not a no-op; it moves on to
    wave 2 with seven enemies and no enemy spawned. *)
Lemma startNextWave_restarts_an_active_wave :
  let s := wave1_one_enemy in
  let s' := startNextWave 0 s in
  (gameStarted s = true /\ isPaused s = false
   /\ wave s = 1 /\ enemiesInWave s = 5 /\ enemiesSpawned s = 1)
  /\ (wave s' = 2 /\ enemiesInWave s' = 7 /\ enemiesSpawned s' = 0)
  /\ wave s' <> wave s /\ enemiesInWave s' <> enemiesInWave s
  /\ enemiesSpawned s' <> enemiesSpawned s.
Proof. vm_compute. split_and!; done. Qed.

Lemma startNextWave_guard_witness :
  startNextWave 0 (togglePause wave1_one_enemy) = togglePause wave1_one_enemy
  /\ wave (startNextWave 0 wave1_one_enemy) = wave wave1_one_enemy + 1.
Proof.
  split.
  - apply (proj1 (startNextWave_guard 0 (togglePause wave1_one_enemy))).
    by vm_compute.
  - apply (proj2 (startNextWave_guard 0 wave1_one_enemy)); by vm_compute.
Defined.

Lemma rejected_placement_changes_nothing_witness :
  placeTower meadow (set_selectedTowerType playerAttack new_game)
    = set_selectedTowerType playerAttack new_game
  /\ placeTower (mkVector3 (-400) 0 0) new_game = new_game.
Proof.
  split.
  - assert (Hpoor : gold (set_selectedTowerType playerAttack new_game)
                    < cost (towerTypes playerAttack)) by by vm_compute.
    exact (proj1 (rejected_placement_changes_nothing meadow
                    (set_selectedTowerType playerAttack new_game)
                    (or_introl Hpoor))).
  - assert (Hnear : exists pathPoint, pathPoint ∈ path new_game
             /\ Number.ltb (Vec.Distance (mkVector3 (-400) 0 0) pathPoint) 4 = true).
    { exists (mkVector3 (-400) 0.15%Q 0). split; [apply list_elem_of_here|].
      by vm_compute. }
    exact (proj1 (rejected_placement_changes_nothing (mkVector3 (-400) 0 0) new_game
                    (or_intror (or_intror (or_intror Hnear))))).
Defined.

Lemma playerAttack_without_enemies_witness :
  let s := new_game |> set_selectedTowerType playerAttack |> set_gold 1000 in
  gold (placeTower meadow s) = 0 /\ score (placeTower meadow s) = 0.
Proof.
  intros s.
  assert (Hp : isPaused s = false) by by vm_compute.
  assert (Ht : selectedTowerType s = playerAttack) by by vm_compute.
  assert (Hgold : 1000 <= gold s) by by vm_compute.
  assert (Hv : validPosition meadow s = true) by by vm_compute.
  assert (He : length (enemies s) = 0%nat) by by vm_compute.
  destruct (playerAttack_without_enemies meadow s Hp Ht Hgold Hv He)
    as (_ & Hg & Hs & _).
  split; [rewrite Hg|rewrite Hs]; by vm_compute.
Defined.

(** The value of a closed game, computed once. *)
Ltac evaluate s :=
  let v := eval vm_compute in s in
  let E := fresh "E" in
  assert (E : s = v) by (vm_compute; reflexivity);
  rewrite ?E in *; clear E.

Lemma enemy_at_end_costs_one_life_witness :
  (lives (updateEnemies_body 1 0 enemy_at_the_end) = 24
   /\ enemies (updateEnemies_body 1 0 enemy_at_the_end) = [])
  /\ reachable at_the_gate
  /\ lives (updateEnemies 1 at_the_gate) = 24
  /\ (0%nat ∉ enemies (updateEnemies 1 at_the_gate))
  /\ (lives (updateEnemies_body 4000 0 (last_stand_after 7505)) = 25
      /\ enemies (updateEnemies_body 4000 0 (last_stand_after 7505)) = []
      /\ gold (updateEnemies_body 4000 0 (last_stand_after 7505)) = 577)
  /\ (lives (playerAttack_body 0 enemy_at_the_end) = 25
      /\ enemies (playerAttack_body 0 enemy_at_the_end) = []
      /\ gold (playerAttack_body 0 enemy_at_the_end) = 617).
Proof.
  destruct enemy_at_end_costs_one_life as (Hturn & Hpass & Hway & Hattack).
  split; [|split].
  - assert (Hi : enemies enemy_at_the_end !! 0%nat = Some 0%nat) by by vm_compute.
    assert (Hr : heap enemy_at_the_end !! 0%nat = Some runner) by by vm_compute.
    assert (Hend : Z.of_nat (length (path enemy_at_the_end)) - 1
                   <= Z.of_nat (Enemy.pathIndex runner)) by by vm_compute.
    destruct (Hturn 1 0%nat 0%nat runner enemy_at_the_end Hi Hr Hend)
      as (Hl & He & _).
    split; [rewrite Hl|rewrite He]; by vm_compute.
  - exists all_sounds, long_walk; reflexivity.
  - evaluate at_the_gate.
    match goal with |- context [updateEnemies 1 ?v] => set (s := v) end.
    assert (Hr : reachable s) by (exists all_sounds, long_walk; by vm_compute).
    assert (Hp : isPaused s = false) by by vm_compute.
    assert (Hin : 0%nat ∈ enemies s).
    { assert (He : enemies s = [0%nat]) by by vm_compute.
      rewrite He. apply list_elem_of_here. }
    assert (Hend : at_end s 0%nat = true) by by vm_compute.
    destruct (Hpass 1 s Hr Hp) as (Hl & Hgone & _).
    split; [etrans; [exact Hl|by vm_compute]|].
    split; [exact (proj1 (Hgone _ Hin Hend))|].
    clear s Hr Hp Hin Hend Hl Hgone. split.
    + evaluate (last_stand_after 7505).
      match goal with |- context [updateEnemies_body 4000 0 ?v] => set (s := v) end.
      assert (Hi : enemies s !! 0%nat = Some 0%nat) by by vm_compute.
      assert (Hr : heap s !! 0%nat = Some (duellist s)) by by vm_compute.
      assert (Hon : Z.of_nat (Enemy.pathIndex (duellist s))
                    < Z.of_nat (length (path s)) - 1) by by vm_compute.
      assert (Hh : Enemy.health (duellist s) <= 0) by by vm_compute.
      destruct (Hway 4000 0%nat 0%nat (duellist s) s Hi Hr Hon)
        as (Hl & _ & Hdead & _).
      destruct (Hdead Hh) as (He & _ & Hg & _).
      split; [etrans; [exact Hl|by vm_compute]|].
      split; (etrans; [eassumption|by vm_compute]).
    + assert (Hi : enemies enemy_at_the_end !! 0%nat = Some 0%nat) by by vm_compute.
      assert (Hr : heap enemy_at_the_end !! 0%nat = Some runner) by by vm_compute.
      destruct (Hattack 0%nat 0%nat runner enemy_at_the_end Hi Hr)
        as (Hl & He & _ & Hg & _).
      split; [etrans; [exact Hl|by vm_compute]|].
      split; (etrans; [eassumption|by vm_compute]).
Defined.

(** C8 fails as stated. In the last stand the fourth projectile of the
    tower hits in frame 7505 and leaves the enemy, which is still before
    the last waypoint (index 17 of 18), with health -20. The step of frame
    7506 brings its waypoint counter to the last waypoint, and the same
    turn removes and disposes of it and credits its reward of 17 to gold
    and 255 to score: the enemy has reached the final waypoint and no
    life has been taken. *)
Lemma enemy_killed_on_arrival_costs_no_life :
  let s := last_stand_after 7505 in
  let s' := step (H := sqrt_fixed) (Frame 4000 4000 1) s in
  (reachable s /\ s' = last_stand_after 7506)
  /\ Z.of_nat (length (path s)) - 1 = 18
  /\ enemies s = [0%nat]
  /\ (fun e => (Enemy.pathIndex e, Enemy.health e)) <$> heap s !! 0%nat
     = Some (17%nat, -20)
  /\ (fun e => (Enemy.pathIndex e, Enemy.disposed e)) <$> heap s' !! 0%nat
     = Some (18%nat, true)
  /\ enemies s' = []
  /\ (lives s = 25 /\ lives s' = 25)
  /\ (gold s = 560 /\ gold s' = 577)
  /\ (score s = 0 /\ score s' = 255).
Proof.
  intros s s'. split.
  - split; [exists all_sounds, (last_stand 7505); reflexivity|].
    assert (Hl : last_stand 7506 = last_stand 7505 ++ [Frame 4000 4000 1])
      by by vm_compute.
    exact (eq_trans
             (eq_sym (run_snoc (last_stand 7505) (Frame 4000 4000 1) new_game))
             (f_equal (fun es => run es new_game) (eq_sym Hl))).
  - subst s'. evaluate s. subst s. vm_compute. split_and!; done.
Qed.

(** C2 fails as stated: in the duel the enemy of health 60 has been hit
    twice by the basic tower (damage 25, second shot fired 901 time units
    after the first) and has 10 health left; it is alive, still in the
    registry, and no reward has been credited. *)
Lemma second_hit_leaves_10_health :
  let s := duel_after 6 in
  (Tower.data <$> towers duel !! 0%nat = Some (towerTypes basic)
   /\ Enemy.health <$> heap duel !! 0%nat = Some 60
   /\ Tower.lastFired <$> towers (duel_after 1) !! 0%nat = Some 1000
   /\ Enemy.health <$> heap (duel_after 2) !! 0%nat = Some 35
   /\ Tower.lastFired <$> towers (duel_after 4) !! 0%nat = Some 1901)
  /\ count_hits s = 2%nat
  /\ Enemy.health <$> heap s !! 0%nat = Some 10
  /\ Enemy.disposed <$> heap s !! 0%nat = Some false
  /\ enemies s = [0%nat]
  /\ gold s = gold duel.
Proof. vm_compute. split_and!; done. Qed.

Lemma basic_tower_kills_health_60_in_three_hits_witness :
  Enemy.health <$> heap (updateProjectiles_body 0 (duel_after 1)) !! 0%nat = Some 35
  /\ (enemies (updateEnemies_body 2830 0 (duel_after 8)) = []
      /\ gold (updateEnemies_body 2830 0 (duel_after 8)) = gold duel + 15
      /\ score (updateEnemies_body 2830 0 (duel_after 8)) = score duel + 225)
  /\ projectiles (updateTowers_body 1900 0 (duel_after 2)) = []
  /\ length (projectiles (updateTowers_body 1901 0 (duel_after 2))) = 1%nat.
Proof.
  destruct basic_tower_kills_health_60_in_three_hits as (_ & Hhit & Hdead & Hgate).
  split; [|split; [|split]].
  - set (s := duel_after 1).
    assert (Hi : projectiles s !! 0%nat = Some (hd stray (projectiles s)))
      by by vm_compute.
    assert (Hd : Projectile.damage (hd stray (projectiles s)) = damage (towerTypes basic))
      by by vm_compute.
    assert (Hh : hitTarget (advance (hd stray (projectiles s))) s
                 = Some (0%nat, duellist s)) by by vm_compute.
    destruct (Hhit 0%nat _ _ _ s Hi Hd Hh) as (_ & H60 & _).
    apply H60. by vm_compute.
  - set (s := duel_after 8).
    assert (Hi : enemies s !! 0%nat = Some 0%nat) by by vm_compute.
    assert (Hr : heap s !! 0%nat = Some (duellist s)) by by vm_compute.
    assert (Hway : Z.of_nat (Enemy.pathIndex (duellist s))
                   < Z.of_nat (length (path s)) - 1) by by vm_compute.
    destruct (Hdead 2830 0%nat 0%nat (duellist s) s Hi Hr Hway) as (_ & H15).
    destruct H15 as (He & Hg & Hs & _); [by vm_compute|].
    split_and!; [rewrite He|rewrite Hg|rewrite Hs]; by vm_compute.
  - set (s := duel_after 2).
    assert (Hp : isPaused s = false) by by vm_compute.
    assert (Hk : towers s !! 0%nat = Some (hd (createTower meadow basic) (towers s)))
      by by vm_compute.
    assert (Hd : Tower.data (hd (createTower meadow basic) (towers s))
                 = towerTypes basic) by by vm_compute.
    assert (Hc : closestEnemy
                   (Tower.position (hd (createTower meadow basic) (towers s)))
                   (range (Tower.data (hd (createTower meadow basic) (towers s)))) s
                 = Some 0%nat) by by vm_compute.
    assert (Hr : heap s !! 0%nat = Some (duellist s)) by by vm_compute.
    destruct (Hgate 1900 0%nat _ _ _ s Hp Hk Hd Hc Hr) as (Hwait & _).
    rewrite Hwait; by vm_compute.
  - set (s := duel_after 2).
    assert (Hp : isPaused s = false) by by vm_compute.
    assert (Hk : towers s !! 0%nat = Some (hd (createTower meadow basic) (towers s)))
      by by vm_compute.
    assert (Hd : Tower.data (hd (createTower meadow basic) (towers s))
                 = towerTypes basic) by by vm_compute.
    assert (Hc : closestEnemy
                   (Tower.position (hd (createTower meadow basic) (towers s)))
                   (range (Tower.data (hd (createTower meadow basic) (towers s)))) s
                 = Some 0%nat) by by vm_compute.
    assert (Hr : heap s !! 0%nat = Some (duellist s)) by by vm_compute.
    destruct (Hgate 1901 0%nat _ _ _ s Hp Hk Hd Hc Hr) as (_ & Hfire).
    destruct Hfire as (Hl & _); [by vm_compute|]. rewrite Hl. by vm_compute.
Defined.

(** C3 fails on the code. Four colonies asked for before the first has
    loaded all pass the gold check against the same 600 gold and are all
    paid for: gold ends at -200. And 26 enemies that walk the path abreast
    reach its end in the same frame, whose loop goes on taking lives after
    the game is over: lives end at -1. Both games are reachable. *)
Theorem gold_and_lives_can_go_negative :
  (reachable (run four_colonies_at_once new_game)
   /\ gold (run four_colonies_at_once new_game) = -200)
  /\ (reachable (run (twenty_six_abreast 7507) new_game)
      /\ lives (run (twenty_six_abreast 7507) new_game) = -1).
Proof.
  split; (split; [by eexists _, _|by vm_compute]).
Qed.

Lemma projectile_direction_fixed_at_fire_time_witness :
  let tower := Tower.set_target (Some 0%nat) (createTower (mkVector3 (-394) 0 0) basic) in
  let s := updateTowers 1000 (updateEnemies 1000 duel) in
  let proj' := hd stray (projectiles (skirmish_after [1000])) in
  (exists proj,
     projectiles (fireProjectile tower duel) = [proj]
     /\ Projectile.direction proj =
          Vec.normalize (Vec.subtract (Enemy.position (duellist duel)) (muzzle tower)))
  /\ (exists proj,
       proj ∈ projectiles s
       /\ Projectile.direction (hd stray (projectiles (updateProjectiles s)))
          = Projectile.direction proj)
  /\ (proj' ∈ projectiles (skirmish_after [])
      \/ exists proj,
           (proj ∈ projectiles (skirmish_after []) \/ exists s1, aimed s1 proj)
           /\ Projectile.direction proj' = Projectile.direction proj).
Proof.
  intros tower s proj'.
  destruct projectile_direction_fixed_at_fire_time as (Hfire & Hflight & Hstep).
  split_and!.
  - assert (Ht : Tower.target tower = Some 0%nat) by by vm_compute.
    assert (Hp : isPaused duel = false) by by vm_compute.
    assert (Hr : heap duel !! 0%nat = Some (duellist duel)) by by vm_compute.
    destruct (Hfire tower 0%nat (duellist duel) duel Ht Hp Hr)
      as (proj & Hl & _ & Hd & _).
    exists proj. split; [|exact Hd]. rewrite Hl. by vm_compute.
  - assert (Hp : isPaused s = false) by by vm_compute.
    assert (Hin : hd stray (projectiles (updateProjectiles s))
                  ∈ projectiles (updateProjectiles s)).
    { assert (Hl : projectiles (updateProjectiles s)
                   = [hd stray (projectiles (updateProjectiles s))]) by by vm_compute.
      rewrite Hl at 2. apply list_elem_of_here. }
    destruct (Hflight s _ Hp Hin) as (proj & Hproj & Hd & _).
    exists proj. split; [exact Hproj|exact Hd].
  - assert (Hin : proj' ∈ projectiles (step (Frame 1000 1000 1) (skirmish_after []))).
    { assert (Hl : projectiles (step (Frame 1000 1000 1) (skirmish_after []))
                   = [proj']) by by vm_compute.
      rewrite Hl. apply list_elem_of_here. }
    destruct (Hstep _ _ _ Hin) as [Hold|(proj & Hfrom & Hd & _)].
    + left. exact Hold.
    + right. exists proj. split; [exact Hfrom|exact Hd].
Defined.

Lemma projectile_expires_after_100_ticks_witness :
  let s := set_projectiles [stray] new_game in
  (projectiles (updateProjectiles s) = []
   /\ heap (updateProjectiles s) = heap s
   /\ fx (updateProjectiles s) = fx s)
  /\ Forall (fun proj => Projectile.life proj <= 100)
       (projectiles (skirmish_after [1000])).
Proof.
  intros s.
  destruct projectile_expires_after_100_ticks as (Hpass & _ & Hreach).
  split.
  - assert (Hp : isPaused s = false) by by vm_compute.
    destruct (Hpass s Hp) as (Hl & _ & _ & Hquiet & _).
    split; [rewrite Hl; by vm_compute|].
    apply Hquiet. intros proj Hin.
    apply list_elem_of_singleton in Hin as ->. by vm_compute.
  - apply Hreach. exists all_sounds, (skirmish [1000]). reflexivity.
Defined.

Lemma score_never_decreases_witness :
  reachable (skirmish_after four_hits)
  /\ score (skirmish_after four_hits)
     <= score (step (Frame 3730 3730 1) (skirmish_after four_hits))
  /\ score_credit (Frame 3730 3730 1) (skirmish_after four_hits).
Proof.
  assert (Hr : reachable (skirmish_after four_hits))
    by (exists all_sounds, (skirmish four_hits); reflexivity).
  split; [exact Hr|].
  exact (score_never_decreases (skirmish_after four_hits) (Frame 3730 3730 1) Hr).
Defined.

(** In that frame the enemy of the skirmish, hit four times, is found
    dead: 17 gold and 255 points. *)
Example skirmish_reward :
  gold (skirmish_after four_hits) = 560
  /\ score (skirmish_after four_hits) = 0
  /\ gold (step (Frame 3730 3730 1) (skirmish_after four_hits)) = 577
  /\ score (step (Frame 3730 3730 1) (skirmish_after four_hits)) = 255.
Proof. by vm_compute. Qed.
